(** * apollo-link-kappa: the directive-driven field resolution engine

    A shallow embedding of [src/link.js] (the [KappaLink] Apollo link) and of
    the second revision of the same file that the repository carries, together
    with the properties its specification states about them.

    JavaScript data is modelled by a store of objects addressed by location:
    object identity, aliasing and in-place updates are visible in the model.
    Caller-supplied functions (resolver functions, subscription filters, view
    methods) are values [VFun f]; what a call of [f] does is given by the
    [Host] the link runs in. *)

From Stdlib Require Import ZArith String Ascii List Bool Lia.
From stdpp Require Import base option list gmap strings fin_maps pretty.

Open Scope string_scope.
Open Scope list_scope.
Set Warnings "-register-all".

(** ** JavaScript values and the object store *)

Module JS.

Abbreviation loc := nat.
Abbreviation fn := nat.

Inductive value : Type :=
| VUndefined
| VNull
| VBool (b : bool)
| VNum (n : Z)
| VStr (s : string)
| VRef (l : loc)
| VFun (f : fn).

(** An object holds its own enumerable properties; an array holds its elements
    and, like every JavaScript array, may carry named properties besides. *)
Inductive obj : Type :=
| Obj (props : gmap string value)
| Arr (elems : list value) (props : gmap string value).

Abbreviation heap := (list obj).

(** Outcome of an evaluation that may throw (or of a promise that may reject). *)
Inductive completion (A : Type) : Type :=
| Ok (a : A)
| Throw (msg : string).
Arguments Ok {A} a.
Arguments Throw {A} msg.

#[global] Instance value_eq_dec : EqDecision value.
Proof. solve_decision. Defined.

#[global] Instance obj_eq_dec : EqDecision obj.
Proof. solve_decision. Defined.

(** ToBoolean. Numbers are the integral ones, so the only falsy number is 0. *)
Definition truthy (v : value) : bool :=
  match v with
  | VUndefined | VNull => false
  | VBool b => b
  | VNum n => negb (n =? 0)%Z
  | VStr s => negb (String.eqb s "")
  | VRef _ | VFun _ => true
  end.

(** [a || b] *)
Definition js_or (a b : value) : value := if truthy a then a else b.

(** [typeof v === 'object'] *)
Definition typeof_object (v : value) : bool :=
  match v with
  | VNull | VRef _ => true
  | _ => false
  end.

(** [typeof v === 'function'] *)
Definition typeof_function (v : value) : bool :=
  match v with
  | VFun _ => true
  | _ => false
  end.

(** [v instanceof Array] *)
Definition instanceof_Array (h : heap) (v : value) : bool :=
  match v with
  | VRef l => match h !! l with Some (Arr _ _) => true | _ => false end
  | _ => false
  end.

(** The array index that a property key denotes, if any: the keys of the
    elements are the canonical decimal numerals. *)
Definition digit (c : ascii) : option nat :=
  let n := nat_of_ascii c in
  if (48 <=? n)%nat && (n <=? 57)%nat then Some (n - 48) else None.

Fixpoint parse_digits (s : string) (acc : nat) : option nat :=
  match s with
  | EmptyString => Some acc
  | String c s' =>
      match digit c with
      | Some d => parse_digits s' (10 * acc + d)
      | None => None
      end
  end.

Definition array_index (k : string) : option nat :=
  match k with
  | EmptyString => None
  | String "0" EmptyString => Some 0
  | String "0" _ => None
  | _ => parse_digits k 0
  end.

(** [l[k]] on the elements of an indexed sequence *)
Definition index_lookup {A} (k : string) (l : list A) : option A :=
  match array_index k with
  | Some i => l !! i
  | None => None
  end.

Fixpoint chars (s : string) : list value :=
  match s with
  | EmptyString => []
  | String c s' => VStr (String c EmptyString) :: chars s'
  end.

Definition from_option_value (o : option value) : value :=
  match o with Some v => v | None => VUndefined end.

(** [v[k]] for a [v] that is neither [undefined] nor [null]. Own properties
    only: members inherited from a prototype are outside the model. *)
Definition get (h : heap) (v : value) (k : string) : value :=
  match v with
  | VRef l =>
      match h !! l with
      | Some (Obj m) => from_option_value (m !! k)
      | Some (Arr es m) =>
          if String.eqb k "length" then VNum (Z.of_nat (List.length es))
          else match index_lookup k es with
               | Some e => e
               | None => from_option_value (m !! k)
               end
      | None => VUndefined
      end
  | VStr s =>
      if String.eqb k "length" then VNum (Z.of_nat (String.length s))
      else from_option_value (index_lookup k (chars s))
  | _ => VUndefined
  end.

(** [v[k]] in general: reading a property of [undefined] or [null] throws. *)
Definition get_prop (h : heap) (v : value) (k : string) : completion value :=
  match v with
  | VUndefined | VNull => Throw "TypeError: cannot read property"
  | _ => Ok (get h v k)
  end.

Definition indexed (l : list value) : gmap string value :=
  list_to_map (imap (fun i e => (pretty i, e)) l).

(** The own enumerable properties that an object spread [{...v}] copies. *)
Definition own_props (h : heap) (v : value) : gmap string value :=
  match v with
  | VRef l =>
      match h !! l with
      | Some (Obj m) => m
      | Some (Arr es m) => indexed es ∪ m
      | None => ∅
      end
  | VStr s => indexed (chars s)
  | _ => ∅
  end.

(** [{ ...target-so-far, ...src }]: the properties of [src] are defined over
    what the literal holds so far. *)
Definition spread (sofar src : gmap string value) : gmap string value :=
  src ∪ sofar.

(** Allocation of a fresh object. *)
Definition alloc (o : obj) (h : heap) : value * heap :=
  (VRef (List.length h), h ++ [o]).

(** [v[k] = x] for a named (non-index) key [k], in strict mode: it throws on
    [undefined], [null] and on primitives; on a function it succeeds (the
    properties of function objects are not part of the model). *)
Definition put (v : value) (k : string) (x : value) (h : heap)
  : completion unit * heap :=
  match v with
  | VRef l =>
      match h !! l with
      | Some (Obj m) => (Ok tt, <[l := Obj (<[k := x]> m)]> h)
      | Some (Arr es m) => (Ok tt, <[l := Arr es (<[k := x]> m)]> h)
      | None => (Throw "dangling reference", h)
      end
  | VFun _ => (Ok tt, h)
  | _ => (Throw "TypeError: cannot create property", h)
  end.

End JS.
Export JS.

(** ** Utilities of link.js *)

(** [String.prototype.toUpperCase] on one character. Field names are GraphQL
    names, hence ASCII. *)
Definition toUpperCase (c : ascii) : ascii :=
  let n := nat_of_ascii c in
  if (97 <=? n)%nat && (n <=? 122)%nat then ascii_of_nat (n - 32) else c.

(** [str.charAt(0).toUpperCase() + str.slice(1)] *)
Definition capitalizeFirstLetter (str : string) : string :=
  match str with
  | EmptyString => EmptyString
  | String c rest => String (toUpperCase c) rest
  end.

(** ** Computations over the object store

    A computation reads and updates the store and either returns or throws;
    the store it leaves behind is kept in both cases, since updates made before
    a throw stay. A rejected promise is a throw. *)

Definition ST (S A : Type) : Type := S -> completion A * S.

Abbreviation M := (ST heap).

Definition ret {S A} (a : A) : ST S A := fun s => (Ok a, s).

Definition throw {S A} (msg : string) : ST S A := fun s => (Throw msg, s).

Definition bind {S A B} (m : ST S A) (k : A -> ST S B) : ST S B :=
  fun s =>
    match m s with
    | (Ok a, s') => k a s'
    | (Throw msg, s') => (Throw msg, s')
    end.

Notation "'let*' x ':=' m 'in' k" := (bind m (fun x => k))
  (at level 10, x pattern, m at level 100, k at level 200).

(** Lifting of a computation that cannot throw. *)
Definition total {S A} (m : S -> A * S) : ST S A :=
  fun s => let '(a, s') := m s in (Ok a, s').

Definition read {S A} (f : S -> A) : ST S A := fun s => (Ok (f s), s).

(** ** The Result Normalizer, [setTypename]

    The repository holds two revisions of it. *)

Definition elems_of (h : heap) (v : value) : list value :=
  match v with
  | VRef l => match h !! l with Some (Arr es _) => es | _ => [] end
  | _ => []
  end.

(** The test [data && typeof data === 'object' && !data.__typename], shared by
    both revisions. *)
Definition lacks_typename (h : heap) (data : value) : bool :=
  truthy data && typeof_object data && negb (truthy (get h data "__typename")).

(** *** src/link.js: copy on write *)
Module Link.

(** [data.map(item => ({ __typename: T, ...item }))] *)
Fixpoint map_items (T : string) (items : list value) (h : heap)
  : list value * heap :=
  match items with
  | [] => ([], h)
  | item :: rest =>
      let '(r, h1) :=
        alloc (Obj (spread {[ "__typename" := VStr T ]} (own_props h item))) h in
      let '(rs, h2) := map_items T rest h1 in
      (r :: rs, h2)
  end.

Definition setTypename (data : value) (fieldName : string) (h : heap)
  : value * heap :=
  if lacks_typename h data then
    if instanceof_Array h data then
      let '(items, h1) :=
        map_items (capitalizeFirstLetter fieldName) (elems_of h data) h in
      alloc (Arr items ∅) h1
    else
      alloc (Obj (<[ "__typename" := VStr (capitalizeFirstLetter fieldName) ]>
                    (spread ∅ (own_props h data)))) h
  else (data, h).

End Link.

(** *** The second revision: update in place *)
Module Part000.

(** [data.map((item) => { item.__typename = T; return item; })] *)
Fixpoint map_items (T : string) (items : list value) : M (list value) :=
  match items with
  | [] => ret []
  | item :: rest =>
      let* _ := put item "__typename" (VStr T) in
      let* rs := map_items T rest in
      ret (item :: rs)
  end.

Definition setTypename (data : value) (fieldName : string) : M value :=
  fun h =>
    if lacks_typename h data then
      if instanceof_Array h data then
        (let* items :=
           map_items (capitalizeFirstLetter fieldName) (elems_of h data) in
         total (alloc (Arr items ∅))) h
      else
        (let* _ := put data "__typename" (VStr (capitalizeFirstLetter fieldName)) in
         ret data) h
    else (Ok data, h).

End Part000.

Inductive Revision : Type := LinkJs | SecondRevision.

Definition setTypename (rev : Revision) (data : value) (fieldName : string)
  : M value :=
  match rev with
  | LinkJs => total (Link.setTypename data fieldName)
  | SecondRevision => Part000.setTypename data fieldName
  end.

(** ** Query documents *)

(** The value of a directive or field argument: a scalar literal, or a
    reference to an operation variable. *)
Inductive ArgValue : Type :=
| Literal (v : value)
| Variable_ (name : string).

Record DirectiveNode : Type := {
  d_name : string;
  d_arguments : list (string * ArgValue)
}.

Inductive Selection : Type :=
| Field (alias : option string) (name : string)
        (arguments : list (string * ArgValue))
        (directives : list DirectiveNode) (selectionSet : list Selection)
| FragmentSpread (name : string) (directives : list DirectiveNode)
| InlineFragment (directives : list DirectiveNode)
                 (selectionSet : list Selection).

Inductive DefinitionNode : Type :=
| OperationDefinition (operation : string) (directives : list DirectiveNode)
                      (selectionSet : list Selection)
| FragmentDefinition (name : string) (directives : list DirectiveNode)
                     (selectionSet : list Selection).

Abbreviation DocumentNode := (list DefinitionNode).

(** [directives.find(d => d.name.value === 'kappa')], as a test *)
Definition has_kappa (ds : list DirectiveNode) : bool :=
  existsb (fun d => String.eqb (d_name d) "kappa") ds.

(** Modelled from the spec: [hasDirectives(['kappa'], document)] of
    apollo-utilities, "the operation's query contains the reserved directive
    anywhere": on a definition, a field, a fragment spread or an inline
    fragment. *)
Fixpoint selection_has_kappa (s : Selection) : bool :=
  match s with
  | Field _ _ _ ds sels => has_kappa ds || existsb selection_has_kappa sels
  | FragmentSpread _ ds => has_kappa ds
  | InlineFragment ds sels => has_kappa ds || existsb selection_has_kappa sels
  end.

Definition definition_has_kappa (d : DefinitionNode) : bool :=
  match d with
  | OperationDefinition _ ds sels
  | FragmentDefinition _ ds sels =>
      has_kappa ds || existsb selection_has_kappa sels
  end.

Definition hasDirectives_kappa (doc : DocumentNode) : bool :=
  existsb definition_has_kappa doc.

(** Modelled from the spec: the traversal [visit(document, { Field(node) })] of
    graphql-js, "a standard pre-order traversal with short-circuit return on
    first match". The visitor of [runSubscription] keeps the first field that
    carries a directive named kappa and breaks. *)
Fixpoint visit_selection (s : Selection) : option Selection :=
  match s with
  | Field _ _ _ ds sels =>
      if has_kappa ds then Some s
      else (fix go (l : list Selection) : option Selection :=
              match l with
              | [] => None
              | x :: l' =>
                  match visit_selection x with
                  | Some f => Some f
                  | None => go l'
                  end
              end) sels
  | FragmentSpread _ _ => None
  | InlineFragment _ sels =>
      (fix go (l : list Selection) : option Selection :=
         match l with
         | [] => None
         | x :: l' =>
             match visit_selection x with
             | Some f => Some f
             | None => go l'
             end
         end) sels
  end.

Fixpoint visit_selections (l : list Selection) : option Selection :=
  match l with
  | [] => None
  | x :: l' =>
      match visit_selection x with
      | Some f => Some f
      | None => visit_selections l'
      end
  end.

Definition definition_selections (d : DefinitionNode) : list Selection :=
  match d with
  | OperationDefinition _ _ sels | FragmentDefinition _ _ sels => sels
  end.

Fixpoint visit (doc : DocumentNode) : option Selection :=
  match doc with
  | [] => None
  | d :: doc' =>
      match visit_selections (definition_selections d) with
      | Some f => Some f
      | None => visit doc'
      end
  end.

(** All fields that carry the kappa directive, in pre-order document order. *)
Fixpoint annotated_fields (s : Selection) : list Selection :=
  match s with
  | Field _ _ _ ds sels =>
      (if has_kappa ds then [s] else []) ++ flat_map annotated_fields sels
  | FragmentSpread _ _ => []
  | InlineFragment _ sels => flat_map annotated_fields sels
  end.

Definition document_annotated_fields (doc : DocumentNode) : list Selection :=
  flat_map (fun d => flat_map annotated_fields (definition_selections d)) doc.

(** The directive information of a field: [null] when the field has no
    directive, else one entry per directive name, holding the directive's
    arguments, or [null] when it has none. *)
Abbreviation DirectiveArgs := (gmap string value).
Abbreviation DirectiveInfo := (option (gmap string (option DirectiveArgs))).

Definition argument_value (variables : gmap string value) (a : ArgValue)
  : value :=
  match a with
  | Literal v => v
  | Variable_ x => from_option_value (variables !! x)
  end.

(** Later arguments of the same name overwrite earlier ones. *)
Definition argumentsObject (variables : gmap string value)
    (args : list (string * ArgValue)) : option DirectiveArgs :=
  match args with
  | [] => None
  | _ =>
      Some (fold_left
              (fun m '(k, a) => <[k := argument_value variables a]> m) args ∅)
  end.

(** Modelled from the spec: the Directive Extractor,
    [getDirectiveInfoFromField(field, variables)] of apollo-utilities. *)
Definition getDirectiveInfo (variables : gmap string value)
    (ds : list DirectiveNode) : DirectiveInfo :=
  match ds with
  | [] => None
  | _ =>
      Some (fold_left
              (fun m d => <[d_name d := argumentsObject variables (d_arguments d)]> m)
              ds ∅)
  end.

Definition getDirectiveInfoFromField (field : Selection)
    (variables : gmap string value) : DirectiveInfo :=
  match field with
  | Field _ _ _ ds _ => getDirectiveInfo variables ds
  | _ => None
  end.

(** [info && info.kappa], when truthy *)
Definition directive_kappa (info : DirectiveInfo) : option DirectiveArgs :=
  match info with
  | Some m => match m !! "kappa" with Some (Some args) => Some args | _ => None end
  | None => None
  end.

Definition field_name (field : Selection) : string :=
  match field with
  | Field _ name _ _ _ => name
  | FragmentSpread name _ => name
  | InlineFragment _ _ => ""
  end.

(** ** The link and its environment *)

(** What the field-execution engine hands to the resolver as [info]. *)
Record Info : Type := {
  resultKey : string;
  info_directives : DirectiveInfo
}.

(** The resolver map: from a type name to the entries of that type, from a
    field name to a resolver function or a plain value. Like property reads,
    lookups see own entries only. *)
Abbreviation ResolverMap := (gmap string (gmap string value)).

(** The behaviour of the functions the link is given and of the runtime. Calls
    of asynchronous functions stand for their awaited result. *)
Record Host : Type := {
  (** ToString of an object or a function, used when one serves as a key *)
  obj_to_string : heap -> value -> string;
  (** [kappa.api[view][method](args)] *)
  call_method : fn -> value -> M value;
  (** [resolve(rootValue, args, context, info)] *)
  call_resolver : fn -> value -> value -> value -> Info -> M value;
  (** [filter(data, args)] *)
  call_filter : fn -> value -> value -> M value;
  (** a subscription resolver of the resolver map, [resolver({}, variables, ctx)] *)
  call_subscriber : fn -> value -> M value;
  (** the function such a resolver returned, [unsubscribe()] *)
  call_disposer : fn -> M value;
  (** [print(typeDef)] of graphql-js *)
  print : DocumentNode -> string
}.

(** The view store: for each view name the members of [kappa.api[view]]. The
    event emitter of each view is part of the state of a run, see [World]. *)
Record Kappa : Type := {
  api : gmap string (gmap string value)
}.

(** ToPropertyKey *)
Definition to_key (host : Host) (h : heap) (v : value) : string :=
  match v with
  | VUndefined => "undefined"
  | VNull => "null"
  | VBool true => "true"
  | VBool false => "false"
  | VNum n => pretty n
  | VStr s => s
  | VRef _ | VFun _ => obj_to_string host h v
  end.

Definition defined (v : value) : bool :=
  match v with VUndefined => false | _ => true end.

(** ** The Field Resolver, [resolver] of [runQuery]

    It is the same in both revisions, but for the normalizer it calls. *)
Section Resolver.

Variable rev : Revision.
Variable host : Host.
Variable kappa : Kappa.

(** [kappa.api[view][method](arg)] *)
Definition api_call (view method arg : value) : M value :=
  fun h =>
    match api kappa !! to_key host h view with
    | None => (Throw "TypeError: cannot read property of undefined", h)
    | Some members =>
        match members !! to_key host h method with
        | Some (VFun f) => call_method host f arg h
        | _ => (Throw "TypeError: not a function", h)
        end
    end.

(** The default of the parameter [rootValue = {}] *)
Definition default_root (rootValue : value) : M value :=
  match rootValue with
  | VUndefined => total (alloc (Obj ∅))
  | _ => ret rootValue
  end.

Definition resolver (type : string) (resolvers : ResolverMap)
    (fieldName : string) (rootValue args context : value) (info : Info)
  : M value :=
  let* rootValue := default_root rootValue in
  match directive_kappa (info_directives info) with
  | Some dk =>
      let view := from_option_value (dk !! "view") in
      let method := from_option_value (dk !! "method") in
      api_call view method (js_or args VUndefined)
  | None =>
      let aliasNeeded := negb (String.eqb (resultKey info) fieldName) in
      let* aliasedNode := fun h => (get_prop h rootValue (resultKey info), h) in
      let* preAliasingNode := fun h => (get_prop h rootValue fieldName, h) in
      if defined aliasedNode || defined preAliasingNode then
        ret (js_or aliasedNode preAliasingNode)
      else
        let* typename := read (fun h => get h rootValue "__typename") in
        let* key := read (fun h => to_key host h (js_or typename (VStr type))) in
        match resolvers !! key with
        | Some resolverMap =>
            let resolve := from_option_value (resolverMap !! fieldName) in
            match resolve with
            | VFun f =>
                let* data := call_resolver host f rootValue args context info in
                setTypename rev data fieldName
            | _ => ret resolve
            end
        | None =>
            ret (js_or (if aliasNeeded then aliasedNode else preAliasingNode) VNull)
        end
  end.

End Resolver.

(** ** Operations and the Operation Dispatcher, [request] *)

Record Schema : Type := {
  definition : string;
  schema_directives : string
}.

(** The context bag of an operation: the keys the link writes, and the rest. A
    key that holds [None] is absent. *)
Record Context : Type := {
  ctx_schemas : option (list Schema);
  ctx_kappa : option Kappa;
  ctx_framework : option value;
  ctx_rest : gmap string value
}.

Record Operation : Type := {
  query : DocumentNode;
  variables : value;
  context : Context
}.

Inductive TypeDef : Type :=
| TypeDefString (s : string)
| TypeDefDocument (d : DocumentNode).

Inductive TypeDefs : Type :=
| OneTypeDef (t : TypeDef)
| ManyTypeDefs (l : list TypeDef).

Inductive Resolvers : Type :=
| ResolversMap (m : ResolverMap)
| ResolversFactory (f : unit -> ResolverMap).

(** The fields the constructor stores. [framework] is read by the second
    revision only. *)
Record KappaLink : Type := {
  kappa : Kappa;
  framework : value;
  resolvers : Resolvers;
  fragmentMatcher : value;
  typeDefs : option TypeDefs
}.

Definition is_space (c : ascii) : bool :=
  let n := nat_of_ascii c in
  ((9 <=? n)%nat && (n <=? 13)%nat) || (n =? 32)%nat.

Fixpoint trimStart (s : string) : string :=
  match s with
  | EmptyString => EmptyString
  | String c s' => if is_space c then trimStart s' else s
  end.

Fixpoint trimEnd (s : string) : string :=
  match s with
  | EmptyString => EmptyString
  | String c s' =>
      match trimEnd s' with
      | EmptyString => if is_space c then EmptyString else String c EmptyString
      | t => String c t
      end
  end.

(** [str.trim()], on ASCII text *)
Definition trim (s : string) : string := trimEnd (trimStart s).

Definition normalizeTypeDefs (host : Host) (typeDefs : TypeDefs) : string :=
  let defs := match typeDefs with OneTypeDef t => [t] | ManyTypeDefs l => l end in
  String.concat (String "010" EmptyString)
    (map trim
       (map (fun typeDef =>
               match typeDef with
               | TypeDefString s => s
               | TypeDefDocument d => print host d
               end) defs)).

(** [if (typeDefs)]: an absent option and the empty string are falsy. *)
Definition typeDefs_given (t : option TypeDefs) : option TypeDefs :=
  match t with
  | Some (OneTypeDef (TypeDefString EmptyString)) => None
  | _ => t
  end.

(** Modelled from the spec: [getMainDefinition(document)] of apollo-utilities,
    "the operation's root kind": the operation definition, or else the first
    fragment definition; a document with several operations or without
    definitions is refused. *)
Definition is_operation (d : DefinitionNode) : bool :=
  match d with OperationDefinition _ _ _ => true | _ => false end.

Definition getMainDefinition (doc : DocumentNode) : completion DefinitionNode :=
  if (1 <? List.length (List.filter is_operation doc))%nat then
    Throw "Ambiguous GraphQL document"
  else
    match List.find is_operation doc with
    | Some d => Ok d
    | None =>
        match doc with
        | d :: _ => Ok d
        | [] => Throw "Expected a parsed GraphQL query"
        end
    end.

(** [def.operation || 'Query'] *)
Definition def_operation (d : DefinitionNode) : string :=
  match d with
  | OperationDefinition EmptyString _ _ => "Query"
  | OperationDefinition operation _ _ => operation
  | FragmentDefinition _ _ _ => "Query"
  end.

(** What the listener of a subscription is built from. *)
Inductive SubscriptionResolver : Type :=
| KappaEvents (view event filter : value)
| FromResolverMap (resolver : value).

(** The object [runSubscription] returns: what its [subscribe] closes over. *)
Record Subscribable : Type := {
  sub_name : string;
  sub_resolver : SubscriptionResolver;
  sub_operation : Operation
}.

(** The observable [runQuery] returns: what its subscriber function closes
    over. Running it hands [resolver type resolvers] to the field-execution
    engine once the view store is ready. *)
Record QueryObservable : Type := {
  q_type : string;
  q_resolvers : ResolverMap;
  q_operation : Operation
}.

(** What [request] returns, for a pipeline whose downstream links produce
    values of type [R]. *)
Inductive Response (R : Type) : Type :=
| Forwarded (r : R)
| ReturnsUndefined
| RunQuery (q : QueryObservable)
| RunSubscription (s : Subscribable).
Arguments Forwarded {R} r.
Arguments ReturnsUndefined {R}.
Arguments RunQuery {R} q.
Arguments RunSubscription {R} s.

(** Effects of a request besides its result. *)
Record Effects : Type := {
  fx_operation : Operation;
  fx_factory_calls : nat;
  fx_console : list string
}.

Section Dispatcher.

Variable rev : Revision.
Variable host : Host.
Variable R : Type.

Definition setContext (f : Context -> Context) (op : Operation) : Operation :=
  {| query := query op; variables := variables op; context := f (context op) |}.

(** [({ schemas = [] }) => ({ schemas: schemas.concat([{ definition, directives }]) })] *)
Definition add_schema (definition : string) (c : Context) : Context :=
  {| ctx_schemas :=
       Some (default [] (ctx_schemas c) ++
             [{| definition := definition;
                 schema_directives := "directive @kappa on FIELD" |}]);
     ctx_kappa := ctx_kappa c;
     ctx_framework := ctx_framework c;
     ctx_rest := ctx_rest c |}.

(** [prevContext => ({ ...prevContext, kappa })], and [framework] besides in
    the second revision *)
Definition add_kappa (link : KappaLink) (c : Context) : Context :=
  {| ctx_schemas := ctx_schemas c;
     ctx_kappa := Some (kappa link);
     ctx_framework :=
       match rev with
       | LinkJs => ctx_framework c
       | SecondRevision => Some (framework link)
       end;
     ctx_rest := ctx_rest c |}.

(** The two calls of [operation.setContext] that open [request] *)
Definition extend_context (link : KappaLink) (operation : Operation) : Operation :=
  let operation :=
    match typeDefs_given (typeDefs link) with
    | Some t => setContext (add_schema (normalizeTypeDefs host t)) operation
    | None => operation
    end in
  setContext (add_kappa link) operation.

Definition runQuery (type : string) (resolvers : ResolverMap) (op : Operation)
  : QueryObservable :=
  {| q_type := type; q_resolvers := resolvers; q_operation := op |}.

Definition runSubscription (type : string) (resolvers : ResolverMap)
    (op : Operation) (forward : option (Operation -> R)) (h : heap)
  : completion (Response R) * list string :=
  let subscriptionResolvers := default ∅ (resolvers !! type) in
  match visit (query op), forward with
  | None, Some forward => (Ok (Forwarded (forward op)), [])
  | None, None => (Throw "TypeError: cannot read property of null", [])
  | Some field, _ =>
      let name := field_name field in
      let directive := getDirectiveInfoFromField field ∅ in
      let resolver :=
        match directive_kappa directive with
        | Some dk =>
            let entry := from_option_value (subscriptionResolvers !! name) in
            KappaEvents (from_option_value (dk !! "view"))
                        (from_option_value (dk !! "event"))
                        (if truthy entry then get h entry "filter" else VUndefined)
        | None => FromResolverMap (from_option_value (subscriptionResolvers !! name))
        end in
      (Ok (RunSubscription
             {| sub_name := name; sub_resolver := resolver; sub_operation := op |}),
       match resolver with
       | FromResolverMap r =>
           if truthy r then [] else ["No resolver registered for " +:+ name]
       | KappaEvents _ _ _ => []
       end)
  end.

Definition request (link : KappaLink) (operation : Operation)
    (forward : option (Operation -> R)) (h : heap)
  : completion (Response R) * Effects :=
  let operation := extend_context link operation in
  (* Ignore if not a kappa query. *)
  if negb (hasDirectives_kappa (query operation)) then
    (Ok match forward with
        | Some forward => Forwarded (forward operation)
        | None => ReturnsUndefined
        end,
     {| fx_operation := operation; fx_factory_calls := 0; fx_console := [] |})
  else
    match getMainDefinition (query operation) with
    | Throw msg =>
        (Throw msg,
         {| fx_operation := operation; fx_factory_calls := 0; fx_console := [] |})
    | Ok def =>
        let '(resolvers, calls) :=
          match resolvers link with
          | ResolversFactory f => (f tt, 1)
          | ResolversMap m => (m, 0)
          end in
        let type := capitalizeFirstLetter (def_operation def) in
        if String.eqb type "Mutation" || String.eqb type "Query" then
          (Ok (RunQuery (runQuery type resolvers operation)),
           {| fx_operation := operation; fx_factory_calls := calls;
              fx_console := [] |})
        else if String.eqb type "Subscription" then
          let '(r, warnings) := runSubscription type resolvers operation forward h in
          (r, {| fx_operation := operation; fx_factory_calls := calls;
                 fx_console := warnings |})
        else
          (Ok ReturnsUndefined,
           {| fx_operation := operation; fx_factory_calls := calls;
              fx_console := ["Invalid type: " +:+ type] |})
    end.

End Dispatcher.

(** ** The Subscription Manager: the life of a subscription

    The state of a run: the object store, the readiness gate of the view store
    with the callbacks waiting on it, the listeners registered on the event
    emitters of the views, the [unsubscribe] variable of every [subscribe]
    call, and what the observers have received. *)

(** The closure [onEvent] of one resolver call. *)
Record Listener : Type := {
  on_id : nat;
  on_filter : value;
  on_args : value;
  on_name : string;
  on_observer : nat
}.

(** What the variable [unsubscribe] may hold once it is assigned. *)
Inductive Unsubscribe : Type :=
| RemoveListener (view event : value) (id : nat)
| ResolverResult (v : value).

(** The callback handed to [kappa.ready] by a [subscribe] call. *)
Record ReadyCallback : Type := {
  cb_source : Subscribable;
  cb_observer : nat;
  cb_cell : nat
}.

Record World : Type := {
  w_heap : heap;
  w_ready : bool;
  w_waiting : list ReadyCallback;
  w_listeners : list (string * string * Listener);
  w_cells : list (option Unsubscribe);
  w_emitted : list (nat * value);
  w_next_id : nat
}.

Definition initial (h : heap) : World :=
  {| w_heap := h; w_ready := false; w_waiting := []; w_listeners := [];
     w_cells := []; w_emitted := []; w_next_id := 0 |}.

Definition with_heap (h : heap) (w : World) : World :=
  {| w_heap := h; w_ready := w_ready w; w_waiting := w_waiting w;
     w_listeners := w_listeners w; w_cells := w_cells w;
     w_emitted := w_emitted w; w_next_id := w_next_id w |}.

Definition with_gate (r : bool) (cbs : list ReadyCallback) (w : World) : World :=
  {| w_heap := w_heap w; w_ready := r; w_waiting := cbs;
     w_listeners := w_listeners w; w_cells := w_cells w;
     w_emitted := w_emitted w; w_next_id := w_next_id w |}.

Definition with_listeners (ls : list (string * string * Listener)) (n : nat)
    (w : World) : World :=
  {| w_heap := w_heap w; w_ready := w_ready w; w_waiting := w_waiting w;
     w_listeners := ls; w_cells := w_cells w;
     w_emitted := w_emitted w; w_next_id := n |}.

Definition with_cells (cs : list (option Unsubscribe)) (w : World) : World :=
  {| w_heap := w_heap w; w_ready := w_ready w; w_waiting := w_waiting w;
     w_listeners := w_listeners w; w_cells := cs;
     w_emitted := w_emitted w; w_next_id := w_next_id w |}.

Definition with_emitted (es : list (nat * value)) (w : World) : World :=
  {| w_heap := w_heap w; w_ready := w_ready w; w_waiting := w_waiting w;
     w_listeners := w_listeners w; w_cells := w_cells w;
     w_emitted := es; w_next_id := w_next_id w |}.

(** A computation on the object store, run in a world. *)
Definition on_heap {A} (m : M A) : ST World A :=
  fun w => let '(r, h) := m (w_heap w) in (r, with_heap h w).

Definition listens (view event : string) (r : string * string * Listener) : bool :=
  String.eqb (fst (fst r)) view && String.eqb (snd (fst r)) event.

(** Removal of the first registration, in the order of the list, of listener
    [id] for [event] on [view]. *)
Fixpoint remove_first (view event : string) (id : nat)
    (ls : list (string * string * Listener)) : list (string * string * Listener) :=
  match ls with
  | [] => []
  | r :: ls' =>
      if listens view event r && (on_id (snd r) =? id)%nat then ls'
      else r :: remove_first view event id ls'
  end.

Section Subscriptions.

Variable rev : Revision.
Variable host : Host.
Variable kappa : Kappa.

(** Modelled from the spec: the event emitter of a view,
    [kappa.api[view].events.on(event, handler)]; it "must support multiple
    simultaneous listeners per event name". *)
Definition events_on (view event : value) (l : Listener) : ST World unit :=
  fun w =>
    let v := to_key host (w_heap w) view in
    match api kappa !! v with
    | None => (Throw "TypeError: cannot read property of undefined", w)
    | Some _ =>
        (Ok tt,
         with_listeners
           (w_listeners w ++ [(v, to_key host (w_heap w) event, l)])
           (w_next_id w) w)
    end.

(** Modelled from the spec: [kappa.api[view].events.removeListener(event,
    handler)]; it removes the most recently added registration of the handler. *)
Definition events_removeListener (view event : value) (id : nat)
  : ST World unit :=
  fun w =>
    let v := to_key host (w_heap w) view in
    match api kappa !! v with
    | None => (Throw "TypeError: cannot read property of undefined", w)
    | Some _ =>
        (Ok tt,
         with_listeners
           (List.rev (remove_first v (to_key host (w_heap w) event) id
                        (List.rev (w_listeners w))))
           (w_next_id w) w)
    end.

(** [next(data)] of the context given to the resolver: normalize, wrap as
    [{ data: { [name]: nextData } }] and hand to the observer. Both objects of
    the wrapper are new. *)
Definition next (name : string) (observer : nat) (data : value) : ST World unit :=
  let* nextData := on_heap (setTypename rev data name) in
  let* inner := on_heap (total (alloc (Obj {[ name := nextData ]}))) in
  let* outer := on_heap (total (alloc (Obj {[ "data" := inner ]}))) in
  fun w => (Ok tt, with_emitted (w_emitted w ++ [(observer, outer)]) w).

(** [filter(data, args)] for a truthy [filter] *)
Definition apply_filter (filter data args : value) : M value :=
  match filter with
  | VFun f => call_filter host f data args
  | _ => throw "TypeError: filter is not a function"
  end.

(** The listener [onEvent] *)
Definition onEvent (l : Listener) (data : value) : ST World unit :=
  if truthy (on_filter l) then
    let* keep := on_heap (apply_filter (on_filter l) data (on_args l)) in
    if truthy keep then next (on_name l) (on_observer l) data else ret tt
  else next (on_name l) (on_observer l) data.

(** The identity of a new closure. *)
Definition fresh_id : ST World nat :=
  fun w => (Ok (w_next_id w), with_listeners (w_listeners w) (S (w_next_id w)) w).

(** [unsubscribe = resolver && resolver({}, operation.variables, { ... })] *)
Definition bind_resolver (s : Subscribable) (observer : nat)
  : ST World Unsubscribe :=
  match sub_resolver s with
  | KappaEvents view event filter =>
      let* id := fresh_id in
      let* _ :=
        events_on view event
          {| on_id := id; on_filter := filter;
             on_args := variables (sub_operation s);
             on_name := sub_name s; on_observer := observer |} in
      ret (RemoveListener view event id)
  | FromResolverMap r =>
      if truthy r then
        match r with
        | VFun f =>
            let* u := on_heap (call_subscriber host f (variables (sub_operation s))) in
            ret (ResolverResult u)
        | _ => throw "TypeError: resolver is not a function"
        end
      else ret (ResolverResult r)
  end.

Definition run_callback (cb : ReadyCallback) : ST World unit :=
  let* u := bind_resolver (cb_source cb) (cb_observer cb) in
  fun w => (Ok tt, with_cells (<[cb_cell cb := Some u]> (w_cells w)) w).

(** Modelled from the spec: [kappa.ready(callback)], "a one-shot, replayable
    signal: callers registered after readiness fires must be invoked
    immediately"; the others wait for the gate. *)
Definition ready (cb : ReadyCallback) : ST World unit :=
  fun w =>
    if w_ready w then run_callback cb w
    else (Ok tt, with_gate false (w_waiting w ++ [cb]) w).

Fixpoint run_callbacks (cbs : list ReadyCallback) : ST World unit :=
  match cbs with
  | [] => ret tt
  | cb :: cbs' => let* _ := run_callback cb in run_callbacks cbs'
  end.

(** The readiness gate of the view store fires. *)
Definition ready_fires : ST World unit :=
  fun w => run_callbacks (w_waiting w) (with_gate true [] w).

(** [subscribe(observer)]: the handle it returns is the variable
    [unsubscribe] that its closure reads. *)
Definition subscribe (s : Subscribable) (observer : nat) : ST World nat :=
  fun w =>
    let cell := List.length (w_cells w) in
    let w := with_cells (w_cells w ++ [None]) w in
    match ready {| cb_source := s; cb_observer := observer; cb_cell := cell |} w with
    | (Ok _, w') => (Ok cell, w')
    | (Throw msg, w') => (Throw msg, w')
    end.

(** [unsubscribe()] of the handle: [if (unsubscribe) { unsubscribe(); }] *)
Definition unsubscribe (handle : nat) : ST World unit :=
  fun w =>
    match w_cells w !! handle with
    | Some (Some (RemoveListener view event id)) =>
        events_removeListener view event id w
    | Some (Some (ResolverResult v)) =>
        if truthy v then
          match v with
          | VFun f => (let* _ := on_heap (call_disposer host f) in ret tt) w
          | _ => (Throw "TypeError: unsubscribe is not a function", w)
          end
        else (Ok tt, w)
    | _ => (Ok tt, w)
    end.

Fixpoint deliver (ls : list (string * string * Listener)) (data : value)
  : ST World unit :=
  match ls with
  | [] => ret tt
  | r :: ls' => let* _ := onEvent (snd r) data in deliver ls' data
  end.

(** The view store emits [event] with payload [data] on the emitter of
    [view]: the listeners registered for it are called in order. *)
Definition emit (view event : string) (data : value) : ST World unit :=
  fun w => deliver (List.filter (listens view event) (w_listeners w)) data w.

(** The view store emits [event] several times, once per payload. *)
Fixpoint emit_all (view event : string) (payloads : list value) : ST World unit :=
  match payloads with
  | [] => ret tt
  | data :: rest => let* _ := emit view event data in emit_all view event rest
  end.

End Subscriptions.

(** ** Values up to the identity of objects

    Two results are compared the way a deep equality compares them: by what
    they hold, not by where they are stored. [reify n h v] unfolds [v] in the
    store [h] down to depth [n]. *)

Inductive tree : Type :=
| TUndefined
| TNull
| TBool (b : bool)
| TNum (n : Z)
| TStr (s : string)
| TFun (f : fn)
| TObj (props : gmap string tree)
| TArr (elems : list tree) (props : gmap string tree)
| TDeeper.

Fixpoint reify (n : nat) (h : heap) (v : value) : tree :=
  match v with
  | VUndefined => TUndefined
  | VNull => TNull
  | VBool b => TBool b
  | VNum z => TNum z
  | VStr s => TStr s
  | VFun f => TFun f
  | VRef l =>
      match n with
      | O => TDeeper
      | S n' =>
          match h !! l with
          | Some (Obj m) => TObj (reify n' h <$> m)
          | Some (Arr es m) => TArr (reify n' h <$> es) (reify n' h <$> m)
          | None => TUndefined
          end
      end
  end.

(** A value is closed in a store when it does not point outside of it; a store
    is closed when its objects hold closed values only. *)
Definition closed (h : heap) (v : value) : Prop :=
  match v with
  | VRef l => l < List.length h
  | _ => True
  end.

Definition closed_obj (h : heap) (o : obj) : Prop :=
  match o with
  | Obj m => map_Forall (fun _ v => closed h v) m
  | Arr es m => Forall (closed h) es /\ map_Forall (fun _ v => closed h v) m
  end.

Definition closed_heap (h : heap) : Prop :=
  forall l o, h !! l = Some o -> closed_obj h o.

(** The emitter and event, as keys, that the kappa directive of a field names. *)
Definition field_binding (host : Host) (h : heap) (field : Selection)
  : option (string * string) :=
  match directive_kappa (getDirectiveInfoFromField field ∅) with
  | Some dk =>
      Some (to_key host h (from_option_value (dk !! "view")),
            to_key host h (from_option_value (dk !! "event")))
  | None => None
  end.

(** A filter that rejects everything, and one that accepts everything. *)
Definition rejects_all (host : Host) (f : fn) : Prop :=
  forall data args h,
    exists v h', call_filter host f data args h = (Ok v, h') /\ truthy v = false.

Definition accepts_all (host : Host) (f : fn) : Prop :=
  forall data args h,
    exists v h', call_filter host f data args h = (Ok v, h') /\ truthy v = true.

(** The store that the filter of a listener, if it has one, leaves behind. *)
Definition after_filter (host : Host) (l : Listener) (data : value) (h : heap)
  : heap :=
  if truthy (on_filter l)
  then snd (apply_filter host (on_filter l) data (on_args l) h)
  else h.

(** The listener forwards [data]: it has no filter, or its filter returns a
    truthy value on it. *)
Definition accepted (host : Host) (l : Listener) (data : value) (h : heap)
  : Prop :=
  truthy (on_filter l) = false
  \/ exists v, fst (apply_filter host (on_filter l) data (on_args l) h) = Ok v
              /\ truthy v = true.

(** The store in which the body of the resolver runs: the one it was called
    in, with the default [{}] of [rootValue] added when the engine passed
    [undefined]. *)
Definition entry (rootValue : value) (h : heap) : value * heap :=
  match rootValue with
  | VUndefined => alloc (Obj ∅) h
  | _ => (rootValue, h)
  end.

(** The method [kappa.api[view][method]] that a directive names. *)
Definition api_method (host : Host) (kappa : Kappa) (h : heap)
    (dk : DirectiveArgs) : option value :=
  api kappa !! to_key host h (from_option_value (dk !! "view"))
    ≫= fun members => members !! to_key host h (from_option_value (dk !! "method")).

(** The object [{ __typename: T, ...item }] *)
Definition typed_item (T : string) (h : heap) (item : value) : obj :=
  Obj (spread {[ "__typename" := VStr T ]} (own_props h item)).

(** ** A concrete setting

    A view store with one view, [items], and a host whose functions are: 0, a
    view method and resolver that return a stored record; 1, a filter that
    accepts everything; 2, a filter that rejects everything. *)
Module Demo.

Definition runtime : Host :=
  {| obj_to_string := fun _ _ => "[object Object]";
     call_method := fun _ _ => ret (VRef 0);
     call_resolver := fun _ _ _ _ _ => ret (VRef 0);
     call_filter := fun f _ _ => ret (VBool (f =? 1)%nat);
     call_subscriber := fun _ _ => ret VUndefined;
     call_disposer := fun _ => ret VUndefined;
     print := fun _ => "" |}.

Definition view_store : Kappa :=
  {| api := {[ "items" := {[ "getItem" := VFun 0 ]} ]} |}.

(** [{ id: "x1" }], [{ total: 0, count: 5 }],
    [{ __typename: "Foo", id: "x2" }] and the array that holds the latter *)
Definition store : heap :=
  [ Obj {[ "id" := VStr "x1" ]};
    Obj (<[ "total" := VNum 0 ]> {[ "count" := VNum 5 ]});
    Obj (<[ "__typename" := VStr "Foo" ]> {[ "id" := VStr "x2" ]});
    Arr [VRef 2] ∅ ].

Definition kappa_directive (view kind name : string) : DirectiveNode :=
  {| d_name := "kappa";
     d_arguments := [("view", Literal (VStr view)); (kind, Literal (VStr name))] |}.

(** [subscription { onItem @kappa(view: "items", event: "added") { id }
                    onGone @kappa(view: "items", event: "removed") { id } }] *)
Definition subscription_document : DocumentNode :=
  [ OperationDefinition "subscription" []
      [ Field None "onItem" [] [kappa_directive "items" "event" "added"]
          [Field None "id" [] [] []];
        Field None "onGone" [] [kappa_directive "items" "event" "removed"]
          [Field None "id" [] [] []] ] ].

(** [query { item { id } }] *)
Definition plain_document : DocumentNode :=
  [ OperationDefinition "query" [] [ Field None "item" [] [] [Field None "id" [] [] []] ] ].

Definition empty_context : Context :=
  {| ctx_schemas := None; ctx_kappa := None; ctx_framework := None; ctx_rest := ∅ |}.

Definition operation (doc : DocumentNode) : Operation :=
  {| query := doc; variables := VUndefined; context := empty_context |}.

Definition link (resolvers : ResolverMap) : KappaLink :=
  {| kappa := view_store; framework := VUndefined; resolvers := ResolversMap resolvers;
     fragmentMatcher := VUndefined; typeDefs := None |}.

Definition on_item (filter : value) : Subscribable :=
  {| sub_name := "onItem";
     sub_resolver := KappaEvents (VStr "items") (VStr "added") filter;
     sub_operation := operation subscription_document |}.

Definition info (key : string) : Info :=
  {| resultKey := key; info_directives := None |}.

(** An observer subscribes to [onItem], cancels at once, and only then the
    view store becomes ready and emits [added] with the record [{ id: "x1" }]. *)
Definition early_unsubscribe (rev : Revision) : completion unit * World :=
  (let* handle := subscribe runtime view_store (on_item VUndefined) 7 in
   let* _ := unsubscribe runtime view_store handle in
   let* _ := ready_fires runtime view_store in
   emit rev runtime "items" "added" (VRef 0)) (initial store).

(** The same, the cancellation coming after the view store became ready. *)
Definition late_unsubscribe (rev : Revision) : completion unit * World :=
  (let* handle := subscribe runtime view_store (on_item VUndefined) 7 in
   let* _ := ready_fires runtime view_store in
   let* _ := unsubscribe runtime view_store handle in
   emit rev runtime "items" "added" (VRef 0)) (initial store).

(** The world in which an observer has subscribed to [onItem] and the view
    store is ready. *)
Definition bound_world (filter : value) : World :=
  snd ((let* _ := subscribe runtime view_store (on_item filter) 7 in
        ready_fires runtime view_store) (initial store)).

Definition bound_listener (filter : value) : Listener :=
  {| on_id := 0; on_filter := filter; on_args := VUndefined;
     on_name := "onItem"; on_observer := 7 |}.

End Demo.

(** ** Notions used to state further properties *)

(** Whitespace at the ends of a text. *)
Definition starts_with_space (s : string) : bool :=
  match s with
  | EmptyString => false
  | String c _ => is_space c
  end.

Fixpoint ends_with_space (s : string) : bool :=
  match s with
  | EmptyString => false
  | String c EmptyString => is_space c
  | String _ s' => ends_with_space s'
  end.

(** The text of a type definition, before trimming. *)
Definition typeDef_text (host : Host) (t : TypeDef) : string :=
  match t with
  | TypeDefString s => s
  | TypeDefDocument d => print host d
  end.

(** [null] or [undefined] *)
Definition nullish (v : value) : bool :=
  match v with
  | VUndefined | VNull => true
  | _ => false
  end.

(** A reference to a record or an array of the store. *)
Definition is_object_in (h : heap) (v : value) : Prop :=
  match v with
  | VRef l => l < List.length h
  | _ => False
  end.

(** The resolver map of a request, [typeof this.resolvers === 'function' ?
    this.resolvers() : this.resolvers], and the number of calls of the factory
    that it takes. *)
Definition resolvers_of (link : KappaLink) : ResolverMap :=
  match resolvers link with
  | ResolversMap m => m
  | ResolversFactory f => f tt
  end.

Definition factory_calls (link : KappaLink) : nat :=
  match resolvers link with
  | ResolversMap _ => 0
  | ResolversFactory _ => 1
  end.

(** The identities of the registered listeners are below the next one. *)
Definition fresh_ids (w : World) : Prop :=
  Forall (fun r => on_id (snd r) < w_next_id w) (w_listeners w).

(** The listener that binding a subscription to the events of a view creates
    in the world [w]. *)
Definition new_listener (s : Subscribable) (filter : value) (observer : nat)
    (w : World) : Listener :=
  {| on_id := w_next_id w; on_filter := filter;
     on_args := variables (sub_operation s);
     on_name := sub_name s; on_observer := observer |}.

(** The payload of an emission [{ data: { [name]: payload } }]. *)
Definition payload (h : heap) (emission : value) (name : string) : value :=
  get h (get h emission "data") name.

(** The filter configured for a subscription field: the [filter] of the entry
    of the resolver map for the field's name under the type, if there is
    one. *)
Definition configured_filter (resolvers : ResolverMap) (type name : string)
    (h : heap) : value :=
  match resolvers !! type ≫= (fun entries => entries !! name) with
  | Some entry => get h entry "filter"
  | None => VUndefined
  end.

(** What an observer has received. *)
Definition emissions_to (observer : nat) (w : World) : list (nat * value) :=
  List.filter (fun e => (fst e =? observer)%nat) (w_emitted w).

(** The listener with this filter runs to its end on every datum: it has no
    filter, or its filter is a function that returns. *)
Definition filter_completes (host : Host) (filter : value) : Prop :=
  truthy filter = false
  \/ exists g, filter = VFun g
              /\ forall data args h,
                   exists v h', call_filter host g data args h = (Ok v, h').

(** Further sample data: the array [[null]], and the record [{ id: "x1" }]
    after it. *)
Module Samples.

Definition store : heap :=
  [ Arr [VNull] ∅; Obj {[ "id" := VStr "x1" ]} ].

(** A host whose resolver functions and view methods all fail. *)
Definition failing : Host :=
  {| obj_to_string := fun _ _ => "[object Object]";
     call_method := fun _ _ => throw "unavailable";
     call_resolver := fun _ _ _ _ _ => throw "unavailable";
     call_filter := fun _ _ _ => throw "unavailable";
     call_subscriber := fun _ _ => throw "unavailable";
     call_disposer := fun _ => throw "unavailable";
     print := fun _ => "" |}.

(** A link that contributes the schema text [defs]. *)
Definition link_with (defs : string) : KappaLink :=
  {| kappa := Demo.view_store; framework := VUndefined;
     resolvers := ResolversFactory (fun _ => ∅);
     fragmentMatcher := VUndefined;
     typeDefs := Some (OneTypeDef (TypeDefString defs)) |}.

(** The schema entry that a link adds to the context for the text [defs]. *)
Definition schema_of (defs : string) : Schema :=
  {| definition := defs; schema_directives := "directive @kappa on FIELD" |}.

(** [query { item @kappa(view: "items", method: "getItem") { id } other }] *)
Definition query_document : DocumentNode :=
  [ OperationDefinition "query" []
      [ Field None "item" [] [Demo.kappa_directive "items" "method" "getItem"]
          [Field None "id" [] [] []];
        Field None "other" [] [] [] ] ].

(** [subscription @kappa(view: "items") { onItem { id } }]: the directive is
    on the operation, not on a field. *)
Definition misplaced_document : DocumentNode :=
  [ OperationDefinition "subscription"
      [Demo.kappa_directive "items" "event" "added"]
      [ Field None "onItem" [] [] [Field None "id" [] [] []] ] ].

(** [subscription { onItem @kappa { id } }]: the directive has no arguments. *)
Definition bare_document : DocumentNode :=
  [ OperationDefinition "subscription" []
      [ Field None "onItem" [] [{| d_name := "kappa"; d_arguments := [] |}]
          [Field None "id" [] [] []] ] ].

(** A ready world in which two observers, 7 for the field [onItem] and 8
    for the field [onOther], listen to the event [added] of the view
    [items]. *)
Definition shared_world : World :=
  with_listeners
    [ ("items", "added", Demo.bound_listener VUndefined);
      ("items", "added",
       {| on_id := 1; on_filter := VUndefined; on_args := VUndefined;
          on_name := "onOther"; on_observer := 8 |}) ]
    2 (with_gate true [] (initial Demo.store)).


(** A resolver map whose entry for the subscription field [onItem] is the
    record at location 4 of [filter_store], which holds the function [f] as
    its [filter]. *)
Definition filter_resolvers : ResolverMap :=
  {[ "Subscription" := {[ "onItem" := VRef 4 ]} ]}.

Definition filter_store (f : fn) : heap :=
  Demo.store ++ [Obj {[ "filter" := VFun f ]}].

(** A world over [filter_store f] in which observer 8 already listens, for the
    field [onOther] and without a filter, to the event [added] of the view
    [items]. *)
Definition busy_world (f : fn) : World :=
  with_listeners
    [ ("items", "added",
       {| on_id := 0; on_filter := VUndefined; on_args := VUndefined;
          on_name := "onOther"; on_observer := 8 |}) ]
    1 (initial (filter_store f)).

End Samples.

(** * Properties *)

(** ** The Operation Dispatcher *)

Lemma extend_context_query rev host link op :
  query (extend_context rev host link op) = query op.
Proof.
  unfold extend_context. destruct (typeDefs_given (typeDefs link)); reflexivity.
Qed.

Lemma extend_context_variables rev host link op :
  variables (extend_context rev host link op) = variables op.
Proof.
  unfold extend_context. destruct (typeDefs_given (typeDefs link)); reflexivity.
Qed.

(** C9. For an operation whose document holds no kappa directive anywhere, the
    request handler returns exactly [forward(operation)], the operation being
    the one it was given (same document and variables, context extended);
    without a [forward] it returns nothing. The operation is not classified,
    the resolver factory is not called, no query is run, no subscription is
    bound and nothing is reported. *)
Theorem request_pass_through rev host (R : Type) link op
    (forward : option (Operation -> R)) h :
  hasDirectives_kappa (query op) = false ->
  request rev host R link op forward h =
    (Ok match forward with
        | Some forward => Forwarded (forward (extend_context rev host link op))
        | None => ReturnsUndefined
        end,
     {| fx_operation := extend_context rev host link op;
        fx_factory_calls := 0; fx_console := [] |})
  /\ query (extend_context rev host link op) = query op
  /\ variables (extend_context rev host link op) = variables op.
Proof.
  intros Hno. split; [|split].
  - unfold request. rewrite extend_context_query, Hno. reflexivity.
  - apply extend_context_query.
  - apply extend_context_variables.
Qed.

Lemma request_pass_through_witness :
  fst (request LinkJs Demo.runtime nat (Demo.link ∅)
         (Demo.operation Demo.plain_document)
         (Some (fun op => List.length (query op))) Demo.store)
  = Ok (Forwarded 1).
Proof.
  destruct (request_pass_through LinkJs Demo.runtime nat (Demo.link ∅)
              (Demo.operation Demo.plain_document)
              (Some (fun op => List.length (query op))) Demo.store) as [H _].
  - reflexivity.
  - rewrite H. reflexivity.
Defined.

(** ** The Field Resolver *)

Lemma default_root_entry rootValue h :
  default_root rootValue h = (Ok (fst (entry rootValue h)), snd (entry rootValue h)).
Proof. destruct rootValue; reflexivity. Qed.

(** C10. For a field that carries the kappa directive with a view and a
    method, resolution is the call [kappa.api[view][method](args || undefined)]
    and nothing else: whatever the parent object and the resolver map hold,
    the value and the store are those the method leaves (no discriminator is
    added); for arguments [A] that are a record this is the call on [A]. *)
Theorem directive_field_resolution rev host kappa type resolvers fieldName
    rootValue args context info dk f h :
  directive_kappa (info_directives info) = Some dk ->
  api_method host kappa (snd (entry rootValue h)) dk = Some (VFun f) ->
  resolver rev host kappa type resolvers fieldName rootValue args context info h
    = call_method host f (js_or args VUndefined) (snd (entry rootValue h))
  /\ (truthy args = true ->
      resolver rev host kappa type resolvers fieldName rootValue args context info h
        = call_method host f args (snd (entry rootValue h))).
Proof.
  intros Hdk Hm.
  assert (resolver rev host kappa type resolvers fieldName rootValue args context info h
          = call_method host f (js_or args VUndefined) (snd (entry rootValue h))) as E.
  { unfold resolver, bind. rewrite default_root_entry, Hdk.
    unfold api_call. unfold api_method in Hm.
    destruct (api kappa !! _) as [members|]; simpl in Hm; [|discriminate].
    rewrite Hm. reflexivity. }
  split; [exact E|].
  intros Ht. rewrite E. unfold js_or. rewrite Ht. reflexivity.
Qed.

Lemma directive_field_resolution_witness :
  resolver LinkJs Demo.runtime Demo.view_store "Query" ∅ "item"
    (VRef 1) (VRef 0) VUndefined
    {| resultKey := "item";
       info_directives :=
         getDirectiveInfo ∅ [Demo.kappa_directive "items" "method" "getItem"] |}
    Demo.store
  = (Ok (VRef 0), Demo.store).
Proof.
  refine (proj1 (directive_field_resolution LinkJs Demo.runtime Demo.view_store
            "Query" ∅ "item" (VRef 1) (VRef 0) VUndefined _
            (<[ "method" := VStr "getItem" ]> {[ "view" := VStr "items" ]})
            0 Demo.store _ _)).
  - reflexivity.
  - reflexivity.
Defined.

(** The part of the alias rule that holds: a truthy alias-keyed value is
    returned, and so is the field-keyed value when the alias-keyed one is
    undefined. *)
Lemma get_prop_ok h v k :
  v <> VUndefined -> v <> VNull -> get_prop h v k = Ok (get h v k).
Proof. destruct v; intros; try congruence; reflexivity. Qed.

Lemma default_root_defined rootValue h :
  rootValue <> VUndefined -> default_root rootValue h = (Ok rootValue, h).
Proof. destruct rootValue; intros; try congruence; reflexivity. Qed.

Lemma resolver_alias_truthy rev host kappa type resolvers fieldName rootValue
    args context info h :
  directive_kappa (info_directives info) = None ->
  rootValue <> VUndefined -> rootValue <> VNull ->
  truthy (get h rootValue (resultKey info)) = true ->
  resolver rev host kappa type resolvers fieldName rootValue args context info h
    = (Ok (get h rootValue (resultKey info)), h).
Proof.
  intros Hdk Hu Hn Ht. unfold resolver, bind.
  rewrite default_root_defined, Hdk, !get_prop_ok by assumption.
  generalize dependent (get h rootValue (resultKey info)). intros a Ht.
  unfold js_or, ret. rewrite Ht. destruct a; try discriminate; reflexivity.
Qed.

Lemma resolver_alias_undefined rev host kappa type resolvers fieldName rootValue
    args context info h :
  directive_kappa (info_directives info) = None ->
  rootValue <> VUndefined -> rootValue <> VNull ->
  get h rootValue (resultKey info) = VUndefined ->
  get h rootValue fieldName <> VUndefined ->
  resolver rev host kappa type resolvers fieldName rootValue args context info h
    = (Ok (get h rootValue fieldName), h).
Proof.
  intros Hdk Hu Hn Ha Hp. unfold resolver, bind.
  rewrite default_root_defined, Hdk, !get_prop_ok, Ha by assumption.
  generalize dependent (get h rootValue fieldName). intros p Hp.
  destruct p; try congruence; reflexivity.
Qed.

(** C2. The alias rule fails on a defined but falsy alias-keyed value. On the
    parent [{ total: 0, count: 5 }], the field [count] selected under the alias
    [total] has the defined alias-keyed value 0, and the resolver returns the
    field-keyed 5; selected under the alias [total] as field [size], which the
    parent lacks, it returns [undefined]. *)
Theorem resolver_alias_falsy rev host kappa :
  get Demo.store (VRef 1) "total" = VNum 0
  /\ resolver rev host kappa "Query" ∅ "count" (VRef 1) VNull VUndefined
       (Demo.info "total") Demo.store = (Ok (VNum 5), Demo.store)
  /\ resolver rev host kappa "Query" ∅ "size" (VRef 1) VNull VUndefined
       (Demo.info "total") Demo.store = (Ok VUndefined, Demo.store).
Proof. repeat split; reflexivity. Qed.




(** ** The Result Normalizer of src/link.js *)

Lemma closed_app h e v : closed h v -> closed (h ++ e) v.
Proof. destruct v; simpl; auto. rewrite length_app. lia. Qed.

Lemma own_props_app h e v : closed h v -> own_props (h ++ e) v = own_props h v.
Proof.
  destruct v; simpl; auto. intros Hl. rewrite lookup_app_l by exact Hl. reflexivity.
Qed.

(** [data.map] allocates one object per element, in order, after the store it
    starts from. *)
Lemma map_items_spec T items : forall h,
  Forall (closed h) items ->
  Link.map_items T items h =
    (VRef <$> seq (List.length h) (List.length items),
     h ++ (typed_item T h <$> items)).
Proof.
  induction items as [|item items IH]; intros h Hc; simpl.
  - rewrite app_nil_r. reflexivity.
  - inversion Hc as [|? ? Hitem Hitems]; subst.
    rewrite IH by (eapply Forall_impl; [exact Hitems | intros; by apply closed_app]).
    rewrite length_app. simpl. rewrite Nat.add_1_r.
    f_equal. rewrite <- app_assoc. simpl. f_equal. f_equal.
    apply Forall_fmap_ext_1. eapply Forall_impl; [exact Hitems|].
    intros v Hv. unfold typed_item. rewrite own_props_app by exact Hv. reflexivity.
Qed.

(** Without the closedness of the elements, the store still only grows. *)
Lemma map_items_grows T items : forall h,
  exists ext, snd (Link.map_items T items h) = h ++ ext.
Proof.
  induction items as [|item items IH]; intros h; simpl.
  - exists []. by rewrite app_nil_r.
  - destruct (IH (h ++ [Obj (spread {[ "__typename" := VStr T ]} (own_props h item))]))
      as [ext Hext].
    destruct (Link.map_items T items _) as [rs h2]. simpl in *. subst h2.
    eexists. rewrite <- app_assoc. reflexivity.
Qed.

(** src/link.js never writes to an object of the store it is given: the store
    it returns is that store followed by the objects it created. *)
Lemma link_setTypename_grows data fieldName h :
  exists ext, snd (Link.setTypename data fieldName h) = h ++ ext.
Proof.
  unfold Link.setTypename.
  destruct (lacks_typename h data); [|exists []; by rewrite app_nil_r].
  destruct (instanceof_Array h data).
  - destruct (map_items_grows (capitalizeFirstLetter fieldName) (elems_of h data) h)
      as [ext Hext].
    destruct (Link.map_items _ _ h) as [items h1]. simpl in *. subst h1.
    eexists. rewrite <- app_assoc. reflexivity.
  - eexists. reflexivity.
Qed.

Lemma link_setTypename_frame data fieldName h l o :
  h !! l = Some o -> snd (Link.setTypename data fieldName h) !! l = Some o.
Proof.
  intros Hl. destruct (link_setTypename_grows data fieldName h) as [ext ->].
  apply lookup_app_l_Some. exact Hl.
Qed.

(** src/link.js returns an object that carries a discriminator as it is. *)
Lemma link_setTypename_keeps data fieldName h :
  truthy (get h data "__typename") = true ->
  Link.setTypename data fieldName h = (data, h).
Proof.
  intros Ht. unfold Link.setTypename, lacks_typename. rewrite Ht.
  rewrite andb_false_r. reflexivity.
Qed.

Lemma typed_item_typename T h item :
  exists m, typed_item T h item = Obj m
    /\ m !! "__typename" = Some (default (VStr T) (own_props h item !! "__typename")).
Proof.
  eexists. split; [reflexivity|]. unfold spread.
  rewrite lookup_union. destruct (own_props h item !! "__typename"); simpl.
  - rewrite lookup_singleton_eq. reflexivity.
  - rewrite lookup_singleton_eq. reflexivity.
Qed.

Lemma array_lacks_typename h l es m :
  h !! l = Some (Arr es m) ->
  lacks_typename h (VRef l) = negb (truthy (from_option_value (m !! "__typename"))).
Proof. intros Hl. unfold lacks_typename. simpl. rewrite Hl. reflexivity. Qed.

(** On an array, src/link.js returns a new array of new objects. *)
Lemma link_setTypename_array fieldName h l es m :
  h !! l = Some (Arr es m) ->
  truthy (from_option_value (m !! "__typename")) = false ->
  Forall (closed h) es ->
  Link.setTypename (VRef l) fieldName h =
    (VRef (List.length h + List.length es),
     h ++ (typed_item (capitalizeFirstLetter fieldName) h <$> es)
       ++ [Arr (VRef <$> seq (List.length h) (List.length es)) ∅]).
Proof.
  intros Hl Ht Hc. unfold Link.setTypename.
  rewrite (array_lacks_typename h l es m Hl), Ht. simpl. rewrite Hl.
  rewrite map_items_spec by exact Hc. unfold alloc.
  rewrite length_app, length_fmap, <- app_assoc. reflexivity.
Qed.

(** Every element of the array that src/link.js returns has the discriminator
    its original had, whatever its value, and the capitalized field name if it
    had none. *)
Lemma link_setTypename_elements fieldName h l es m i item :
  h !! l = Some (Arr es m) ->
  truthy (from_option_value (m !! "__typename")) = false ->
  Forall (closed h) es ->
  es !! i = Some item ->
  exists r,
    elems_of (snd (Link.setTypename (VRef l) fieldName h))
             (fst (Link.setTypename (VRef l) fieldName h)) !! i = Some r
    /\ own_props (snd (Link.setTypename (VRef l) fieldName h)) r !! "__typename"
       = Some (default (VStr (capitalizeFirstLetter fieldName))
                 (own_props h item !! "__typename")).
Proof.
  intros Hl Ht Hc Hi.
  rewrite (link_setTypename_array fieldName h l es m Hl Ht Hc). simpl.
  assert (i < List.length es) as Hlt by (eapply lookup_lt_Some; exact Hi).
  exists (VRef (List.length h + i)). split.
  - rewrite app_assoc, lookup_app_r; rewrite length_app, length_fmap; [|lia].
    replace (_ - _) with 0 by lia. simpl.
    rewrite list_lookup_fmap, lookup_seq_lt by exact Hlt. reflexivity.
  - simpl. rewrite lookup_app_r by lia.
    replace (_ - _) with i by lia.
    rewrite lookup_app_l by (rewrite length_fmap; exact Hlt).
    rewrite list_lookup_fmap, Hi. simpl.
    destruct (typed_item_typename (capitalizeFirstLetter fieldName) h item)
      as (m' & E & Hm').
    unfold typed_item in E. injection E as <-. exact Hm'.
Qed.

(** ** The Result Normalizer of the second revision *)

(** C5. The second revision of the normalizer writes the discriminator into
    the object it is given: the record [{ id: "x1" }] of the caller carries
    [__typename: "Item"] after the call, and the value returned is that very
    object. *)
Theorem part000_setTypename_mutates_input :
  get Demo.store (VRef 0) "__typename" = VUndefined
  /\ fst (Part000.setTypename (VRef 0) "item" Demo.store) = Ok (VRef 0)
  /\ get (snd (Part000.setTypename (VRef 0) "item" Demo.store)) (VRef 0) "__typename"
     = VStr "Item"
  /\ snd (Part000.setTypename (VRef 0) "item" Demo.store) !! 0 <> Demo.store !! 0.
Proof. repeat split; try reflexivity. vm_compute. discriminate. Qed.

(** C4. The second revision of the normalizer overwrites the discriminator of
    every element of an array: the element [{ __typename: "Foo", id: "x2" }]
    carries [__typename: "Items"] after the call. *)
Theorem part000_setTypename_overwrites_elements :
  get Demo.store (VRef 2) "__typename" = VStr "Foo"
  /\ fst (Part000.setTypename (VRef 3) "items" Demo.store) = Ok (VRef 4)
  /\ elems_of (snd (Part000.setTypename (VRef 3) "items" Demo.store)) (VRef 4)
     = [VRef 2]
  /\ get (snd (Part000.setTypename (VRef 3) "items" Demo.store)) (VRef 2) "__typename"
     = VStr "Items".
Proof. repeat split; reflexivity. Qed.

(** On the same array, src/link.js keeps the discriminator of the element. *)
Lemma link_setTypename_keeps_element :
  fst (Link.setTypename (VRef 3) "items" Demo.store) = VRef 5
  /\ elems_of (snd (Link.setTypename (VRef 3) "items" Demo.store)) (VRef 5) = [VRef 4]
  /\ get (snd (Link.setTypename (VRef 3) "items" Demo.store)) (VRef 4) "__typename"
     = VStr "Foo"
  /\ get (snd (Link.setTypename (VRef 3) "items" Demo.store)) (VRef 2) "__typename"
     = VStr "Foo".
Proof. repeat split; reflexivity. Qed.

(** ** The Subscription Manager *)

(** C1. A cancellation that comes before the readiness gate fires is dropped:
    the variable [unsubscribe] is still unset when the handle is invoked, so
    nothing is recorded, and when the gate fires the listener is registered
    and stays. The event emitted afterwards reaches the observer. *)
Theorem unsubscribe_before_ready_leaks rev :
  fst (Demo.early_unsubscribe rev) = Ok tt
  /\ List.length (w_listeners (snd (Demo.early_unsubscribe rev))) = 1
  /\ List.length (w_emitted (snd (Demo.early_unsubscribe rev))) = 1.
Proof. destruct rev; repeat split; reflexivity. Qed.

(** This is so for every subscription to the events of a view that exists. *)
Lemma unsubscribe_before_ready_ignored host kappa s observer view event filter
    members h :
  sub_resolver s = KappaEvents view event filter ->
  api kappa !! to_key host h view = Some members ->
  exists l,
    w_listeners
      (snd ((let* handle := subscribe host kappa s observer in
             let* _ := unsubscribe host kappa handle in
             ready_fires host kappa) (initial h)))
    = [(to_key host h view, to_key host h event, l)]
    /\ on_observer l = observer.
Proof.
  intros Hs Hview.
  unfold bind, subscribe, ready, unsubscribe, ready_fires. simpl.
  unfold bind, run_callback, bind_resolver. simpl. rewrite Hs.
  unfold bind, fresh_id, events_on. simpl. rewrite Hview. simpl.
  eexists. split; reflexivity.
Qed.

(** A cancellation that comes after the gate fired removes the listener. *)
Lemma unsubscribe_after_ready_removes rev :
  fst (Demo.late_unsubscribe rev) = Ok tt
  /\ w_listeners (snd (Demo.late_unsubscribe rev)) = []
  /\ w_emitted (snd (Demo.late_unsubscribe rev)) = [].
Proof. destruct rev; repeat split; reflexivity. Qed.

Lemma visit_selection_head : forall s,
  visit_selection s = head (annotated_fields s).
Proof.
  fix IH 1. intros [a n args ds sels | n ds | ds sels]; simpl.
  - destruct (has_kappa ds); simpl; [reflexivity|].
    induction sels as [|x sels IHs]; simpl; [reflexivity|].
    rewrite (IH x). destruct (annotated_fields x); simpl; [exact IHs | reflexivity].
  - reflexivity.
  - induction sels as [|x sels IHs]; simpl; [reflexivity|].
    rewrite (IH x). destruct (annotated_fields x); simpl; [exact IHs | reflexivity].
Qed.

Lemma visit_selections_head sels :
  visit_selections sels = head (flat_map annotated_fields sels).
Proof.
  induction sels as [|x sels IH]; simpl; [reflexivity|].
  rewrite visit_selection_head.
  destruct (annotated_fields x); simpl; [exact IH | reflexivity].
Qed.

(** The traversal stops at the first annotated field in document order. *)
Lemma visit_head doc : visit doc = head (document_annotated_fields doc).
Proof.
  induction doc as [|d doc IH]; simpl; [reflexivity|].
  rewrite visit_selections_head. unfold document_annotated_fields in *. simpl.
  destruct (flat_map annotated_fields (definition_selections d)); simpl;
    [exact IH | reflexivity].
Qed.

Lemma on_heap_frame {A} (m : M A) w :
  let w' := snd (on_heap m w) in
  w_listeners w' = w_listeners w /\ w_waiting w' = w_waiting w
  /\ w_ready w' = w_ready w /\ w_emitted w' = w_emitted w
  /\ w_cells w' = w_cells w.
Proof. unfold on_heap. destruct (m (w_heap w)). simpl. auto. Qed.


(** What [next] does in src/link.js: one emission, a fresh
    [{ data: { [name]: nextData } }] around the normalized payload. *)
Lemma next_emits name observer data w :
  exists x inner w',
    next LinkJs name observer data w = (Ok tt, w')
    /\ w_emitted w' = w_emitted w ++ [(observer, x)]
    /\ own_props (w_heap w') x = {[ "data" := inner ]}
    /\ own_props (w_heap w') inner
       = {[ name := fst (Link.setTypename data name (w_heap w)) ]}
    /\ w_listeners w' = w_listeners w.
Proof.
  unfold next, bind, on_heap, setTypename, total, alloc. simpl.
  destruct (Link.setTypename data name (w_heap w)) as [nextData h2]. simpl.
  eexists _, _, _. split; [reflexivity|]. simpl.
  split; [reflexivity|]. split; [|split; [|reflexivity]].
  - unfold own_props. rewrite lookup_app_r; rewrite length_app; simpl; [|lia].
    replace (_ - _) with 0 by lia. reflexivity.
  - unfold own_props. rewrite lookup_app_l by (rewrite length_app; simpl; lia).
    rewrite lookup_app_r by lia. replace (_ - _) with 0 by lia. reflexivity.
Qed.

Lemma deliver_one rev host r data w :
  deliver rev host [r] data w = onEvent rev host (snd r) data w.
Proof.
  unfold deliver, bind. destruct (onEvent rev host (snd r) data w) as [[[]|msg] w'];
    reflexivity.
Qed.


Lemma listens_refl view event l : listens view event (view, event, l) = true.
Proof. unfold listens. simpl. rewrite !String.eqb_refl. reflexivity. Qed.

(** With one listener bound for the event, emitting is calling that listener. *)
Lemma emit_bound rev host view event l data w :
  w_listeners w = [(view, event, l)] ->
  emit rev host view event data w = onEvent rev host l data w.
Proof.
  intros Hl. unfold emit. rewrite Hl. simpl. rewrite listens_refl.
  apply deliver_one.
Qed.

Lemma onEvent_rejected rev host l f data w :
  on_filter l = VFun f -> rejects_all host f ->
  exists w', onEvent rev host l data w = (Ok tt, w')
    /\ w_emitted w' = w_emitted w /\ w_listeners w' = w_listeners w.
Proof.
  intros Hf Hrej. unfold onEvent. rewrite Hf. simpl.
  destruct (Hrej data (on_args l) (w_heap w)) as (v & h' & Hcall & Hv).
  unfold bind, on_heap. rewrite Hcall, Hv. eexists. split; [reflexivity|]. auto.
Qed.

Lemma onEvent_accepted host l data w :
  accepted host l data (w_heap w) ->
  onEvent LinkJs host l data w
  = next LinkJs (on_name l) (on_observer l) data
      (with_heap (after_filter host l data (w_heap w)) w).
Proof.
  unfold accepted, after_filter, onEvent. intros [Hno | (v & Hcall & Hv)].
  - rewrite Hno. destruct w; reflexivity.
  - destruct (truthy (on_filter l)); [|destruct w; reflexivity].
    unfold bind, on_heap.
    destruct (apply_filter host (on_filter l) data (on_args l) (w_heap w))
      as [c h1]. simpl in *. subst c. rewrite Hv. reflexivity.
Qed.

(** ** Closed stores and the deep view of a value *)

Lemma closed_obj_app h e o : closed_obj h o -> closed_obj (h ++ e) o.
Proof.
  destruct o as [m | es m]; simpl.
  - intros Hm. eapply map_Forall_impl; [exact Hm|]. intros k v. apply closed_app.
  - intros [Hes Hm]. split.
    + eapply Forall_impl; [exact Hes | intros v; apply closed_app].
    + eapply map_Forall_impl; [exact Hm|]. intros k v. apply closed_app.
Qed.

(** Allocating closed objects keeps a store closed. *)
Lemma closed_heap_app h ext :
  closed_heap h -> Forall (closed_obj (h ++ ext)) ext -> closed_heap (h ++ ext).
Proof.
  intros Hh Hext l o Hl.
  destruct (decide (l < List.length h)) as [Hlt | Hge].
  - rewrite lookup_app_l in Hl by exact Hlt. apply closed_obj_app. eapply Hh, Hl.
  - rewrite lookup_app_r in Hl by lia.
    rewrite Forall_forall in Hext. apply Hext.
    eapply list_elem_of_lookup_2. exact Hl.
Qed.

Lemma indexed_values (P : value -> Prop) l :
  Forall P l -> map_Forall (fun _ v => P v) (indexed l).
Proof.
  intros Hl k v Hk. unfold indexed in Hk.
  apply elem_of_list_to_map_2 in Hk.
  apply elem_of_lookup_imap in Hk as (i & y & E & Hi). injection E as _ <-.
  rewrite Forall_forall in Hl. apply Hl.
  eapply list_elem_of_lookup_2. exact Hi.
Qed.

Lemma chars_closed h s : Forall (closed h) (chars s).
Proof. induction s; simpl; constructor; simpl; auto. Qed.

(** What a spread copies out of a closed store is closed. *)
Lemma own_props_closed h v :
  closed_heap h -> map_Forall (fun _ x => closed h x) (own_props h v).
Proof.
  intros Hh. destruct v; simpl; try apply map_Forall_empty.
  - apply indexed_values, chars_closed.
  - destruct (h !! l) as [[m | es m]|] eqn:Hl; [| |apply map_Forall_empty].
    + exact (Hh l _ Hl).
    + destruct (Hh l _ Hl) as [Hes Hm].
      apply map_Forall_union_2; [apply indexed_values; exact Hes | exact Hm].
Qed.

(** The deep view of a closed value does not depend on later allocations. *)
Lemma reify_app n : forall h e v,
  closed_heap h -> closed h v -> reify n (h ++ e) v = reify n h v.
Proof.
  induction n as [|n IH]; intros h e v Hh Hv; destruct v; simpl; try reflexivity.
  simpl in Hv. rewrite lookup_app_l by exact Hv.
  destruct (h !! l) as [[m | es m]|] eqn:Hl; [| |reflexivity].
  - f_equal. apply map_fmap_ext. intros k x Hk. apply IH; [exact Hh|].
    exact (Hh l _ Hl k x Hk).
  - destruct (Hh l _ Hl) as [Hes Hm]. f_equal.
    + apply Forall_fmap_ext_1. eapply Forall_impl; [exact Hes|].
      intros x Hx. apply IH; assumption.
    + apply map_fmap_ext. intros k x Hk. apply IH; [exact Hh|]. exact (Hm k x Hk).
Qed.

Lemma lacks_typename_ref h data :
  lacks_typename h data = true -> exists l, data = VRef l.
Proof.
  unfold lacks_typename.
  destruct data; simpl; rewrite ?andb_false_r; try discriminate; eauto.
Qed.

Lemma object_lacks_typename h l m :
  h !! l = Some (Obj m) ->
  lacks_typename h (VRef l) = negb (truthy (from_option_value (m !! "__typename"))).
Proof. intros Hl. unfold lacks_typename. simpl. rewrite Hl. reflexivity. Qed.

(** On a record without a discriminator, src/link.js returns a new record:
    the properties of the old one and the discriminator. *)
Lemma link_setTypename_object fieldName h l m :
  h !! l = Some (Obj m) ->
  truthy (from_option_value (m !! "__typename")) = false ->
  Link.setTypename (VRef l) fieldName h =
    (VRef (List.length h),
     h ++ [Obj (<[ "__typename" := VStr (capitalizeFirstLetter fieldName) ]> m)]).
Proof.
  intros Hl Ht. unfold Link.setTypename.
  rewrite (object_lacks_typename h l m Hl), Ht. simpl. rewrite Hl.
  unfold alloc, spread. rewrite (right_id_L ∅ (∪)). reflexivity.
Qed.

Lemma link_setTypename_id data fieldName h :
  lacks_typename h data = false -> Link.setTypename data fieldName h = (data, h).
Proof. intros H. unfold Link.setTypename. rewrite H. reflexivity. Qed.

Lemma lookup_alloc (h : heap) o : (h ++ [o]) !! List.length h = Some o.
Proof. apply list_lookup_middle. reflexivity. Qed.

Lemma typename_union (m : gmap string value) T :
  spread {[ "__typename" := VStr T ]}
    (spread {[ "__typename" := VStr T ]} m)
  = spread {[ "__typename" := VStr T ]} m.
Proof.
  unfold spread. rewrite <- (assoc_L (∪)), (idemp_L (∪)). reflexivity.
Qed.

Lemma typed_item_closed T h item :
  closed_heap h -> closed_obj h (typed_item T h item).
Proof.
  intros Hh. simpl. unfold spread. apply map_Forall_union_2.
  - apply own_props_closed. exact Hh.
  - apply map_Forall_singleton. exact I.
Qed.

(** Normalizing a record twice. *)
Lemma link_setTypename_twice_object fieldName h l m n :
  closed_heap h ->
  h !! l = Some (Obj m) ->
  truthy (from_option_value (m !! "__typename")) = false ->
  let r1 := Link.setTypename (VRef l) fieldName h in
  let r2 := Link.setTypename (fst r1) fieldName (snd r1) in
  reify n (snd r2) (fst r2) = reify n (snd r1) (fst r1).
Proof.
  intros Hh Hl Ht. cbv zeta.
  rewrite (link_setTypename_object fieldName h l m Hl Ht). simpl fst. simpl snd.
  set (T := capitalizeFirstLetter fieldName).
  set (m1 := <[ "__typename" := VStr T ]> m).
  set (h1 := h ++ [Obj m1]).
  assert (h1 !! List.length h = Some (Obj m1)) as Hl1 by apply lookup_alloc.
  assert (m1 !! "__typename" = Some (VStr T)) as HT by apply lookup_insert_eq.
  destruct (truthy (VStr T)) eqn:HtT.
  - rewrite link_setTypename_keeps; [reflexivity|].
    simpl. rewrite Hl1, HT. exact HtT.
  - rewrite (link_setTypename_object fieldName h1 (List.length h) m1 Hl1)
      by (rewrite HT; exact HtT).
    replace (<[ "__typename" := VStr (capitalizeFirstLetter fieldName) ]> m1)
      with m1 by (symmetry; apply insert_insert_eq).
    simpl fst. simpl snd.
    assert (closed_heap h1) as Hh1.
    { apply closed_heap_app; [exact Hh|]. constructor; [|constructor].
      simpl. apply map_Forall_insert_2; [exact I|].
      exact (closed_obj_app h [Obj m1] (Obj m) (Hh l _ Hl)). }
    destruct n; [reflexivity|]. simpl. rewrite lookup_alloc, Hl1. f_equal.
    apply map_fmap_ext. intros k x Hk. apply reify_app; [exact Hh1|].
    exact (Hh1 _ _ Hl1 k x Hk).
Qed.

Lemma seq_refs_closed (h : heap) a k :
  a + k <= List.length h -> Forall (closed h) (VRef <$> seq a k).
Proof.
  intros Hle. apply Forall_fmap, Forall_forall. intros i Hi. simpl.
  apply elem_of_seq in Hi. lia.
Qed.

(** Normalizing an array twice. *)
Lemma link_setTypename_twice_array fieldName h l es m n :
  closed_heap h ->
  h !! l = Some (Arr es m) ->
  truthy (from_option_value (m !! "__typename")) = false ->
  let r1 := Link.setTypename (VRef l) fieldName h in
  let r2 := Link.setTypename (fst r1) fieldName (snd r1) in
  reify n (snd r2) (fst r2) = reify n (snd r1) (fst r1).
Proof.
  intros Hh Hl Ht. cbv zeta.
  assert (Forall (closed h) es) as Hes by exact (proj1 (Hh l _ Hl)).
  rewrite (link_setTypename_array fieldName h l es m Hl Ht Hes). simpl fst. simpl snd.
  set (T := capitalizeFirstLetter fieldName).
  set (items1 := typed_item T h <$> es).
  set (refs1 := VRef <$> seq (List.length h) (List.length es)).
  set (h1 := h ++ items1 ++ [Arr refs1 ∅]).
  assert (List.length items1 = List.length es) as Hlen1 by apply length_fmap.
  assert (List.length refs1 = List.length es) as Hlenr
    by (unfold refs1; rewrite length_fmap, length_seq; reflexivity).
  assert (List.length h1 = List.length h + List.length es + 1) as Hlenh1
    by (unfold h1; rewrite !length_app, Hlen1; simpl; lia).
  assert (h1 !! (List.length h + List.length es) = Some (Arr refs1 ∅)) as Hl1.
  { unfold h1. rewrite app_assoc. apply list_lookup_middle.
    rewrite length_app, Hlen1. reflexivity. }
  assert (Forall (closed h1) refs1) as Hrefs1 by (apply seq_refs_closed; lia).
  assert (closed_heap h1) as Hh1.
  { apply closed_heap_app; [exact Hh|]. apply Forall_app. split.
    - apply Forall_fmap, Forall_forall. intros item _.
      apply closed_obj_app, typed_item_closed, Hh.
    - constructor; [|constructor]. split; [exact Hrefs1 | apply map_Forall_empty]. }
  rewrite (link_setTypename_array fieldName h1 _ refs1 ∅ Hl1 eq_refl Hrefs1).
  fold T. simpl fst. simpl snd. rewrite Hlenr.
  set (items2 := typed_item T h1 <$> refs1).
  set (refs2 := VRef <$> seq (List.length h1) (List.length es)).
  set (h2 := h1 ++ items2 ++ [Arr refs2 ∅]).
  assert (List.length items2 = List.length es) as Hlen2
    by (unfold items2; rewrite length_fmap; exact Hlenr).
  assert (h2 !! (List.length h1 + List.length es) = Some (Arr refs2 ∅)) as Hl2.
  { unfold h2. rewrite app_assoc. apply list_lookup_middle.
    rewrite length_app, Hlen2. reflexivity. }
  destruct n as [|n]; [reflexivity|]. simpl. rewrite Hl1, Hl2. f_equal.
  apply list_eq. intros i. unfold refs1, refs2. rewrite !list_lookup_fmap.
  destruct (decide (i < List.length es)) as [Hi | Hi];
    [|rewrite !lookup_seq_ge by lia; reflexivity].
  rewrite !lookup_seq_lt by exact Hi. simpl. f_equal.
  destruct n as [|n]; [reflexivity|]. simpl.
  destruct (lookup_lt_is_Some_2 es i Hi) as [item Hitem].
  assert (h1 !! (List.length h + i) = Some (typed_item T h item)) as Hi1.
  { unfold h1. rewrite lookup_app_r by lia.
    replace (List.length h + i - List.length h) with i by lia.
    rewrite lookup_app_l by lia.
    unfold items1. rewrite list_lookup_fmap, Hitem. reflexivity. }
  assert (h2 !! (List.length h1 + i) = Some (typed_item T h item)) as Hi2.
  { unfold h2. rewrite lookup_app_r by lia.
    replace (List.length h1 + i - List.length h1) with i by lia.
    rewrite lookup_app_l by lia.
    unfold items2, refs1. rewrite !list_lookup_fmap, lookup_seq_lt by exact Hi.
    simpl. unfold typed_item at 1. unfold own_props at 1. rewrite Hi1.
    unfold typed_item. rewrite typename_union. reflexivity. }
  rewrite Hi1, Hi2. simpl. f_equal.
  apply map_fmap_ext. intros k x Hk. apply reify_app; [exact Hh1|].
  exact (Hh1 _ _ Hi1 k x Hk).
Qed.

(** The resolver on a field that a function of the resolver map resolves. *)
Lemma resolver_function_entry rev host kappa type (resolvers : ResolverMap)
    fieldName rootValue args context info h f :
  directive_kappa (info_directives info) = None ->
  rootValue <> VUndefined -> rootValue <> VNull ->
  get h rootValue (resultKey info) = VUndefined ->
  get h rootValue fieldName = VUndefined ->
  resolvers !! to_key host h (js_or (get h rootValue "__typename") (VStr type))
    ≫= (fun resolverMap => resolverMap !! fieldName) = Some (VFun f) ->
  resolver rev host kappa type resolvers fieldName rootValue args context info h
  = (let* data := call_resolver host f rootValue args context info in
     setTypename rev data fieldName) h.
Proof.
  intros Hdk Hu Hn Ha Hp Hf. unfold resolver, bind at 1 2 3 4 5.
  rewrite default_root_defined, Hdk, !get_prop_ok, Ha, Hp by assumption.
  simpl. unfold read.
  destruct (resolvers !! _) as [resolverMap|]; simpl in Hf; [|discriminate].
  rewrite Hf. reflexivity.
Qed.

(** C6. In src/link.js, a record that a function of the resolver map returns
    without a discriminator leaves the resolver as a record whose
    discriminator is the field name with its first letter capitalized; and
    normalizing is idempotent: on a closed store, the result of normalizing
    the result of [setTypename] again holds, at every depth, what that result
    holds. *)
Theorem normalizer_discriminator_idempotent :
  (forall host kappa type (resolvers : ResolverMap) fieldName rootValue args
          context info h f data h1,
      directive_kappa (info_directives info) = None ->
      rootValue <> VUndefined -> rootValue <> VNull ->
      get h rootValue (resultKey info) = VUndefined ->
      get h rootValue fieldName = VUndefined ->
      resolvers !! to_key host h (js_or (get h rootValue "__typename") (VStr type))
        ≫= (fun resolverMap => resolverMap !! fieldName) = Some (VFun f) ->
      call_resolver host f rootValue args context info h = (Ok data, h1) ->
      lacks_typename h1 data = true -> instanceof_Array h1 data = false ->
      exists r h',
        resolver LinkJs host kappa type resolvers fieldName rootValue args
          context info h = (Ok r, h')
        /\ get h' r "__typename" = VStr (capitalizeFirstLetter fieldName)
        /\ own_props h' r
           = <[ "__typename" := VStr (capitalizeFirstLetter fieldName) ]>
               (own_props h1 data))
  /\ (forall h x fieldName n,
        closed_heap h -> closed h x ->
        let r1 := Link.setTypename x fieldName h in
        let r2 := Link.setTypename (fst r1) fieldName (snd r1) in
        reify n (snd r2) (fst r2) = reify n (snd r1) (fst r1)).
Proof.
  split.
  - intros host kappa type resolvers fieldName rootValue args context info h f
      data h1 Hdk Hu Hn Ha Hp Hf Hcall Hlacks Harr.
    rewrite (resolver_function_entry LinkJs host kappa type resolvers fieldName
               rootValue args context info h f Hdk Hu Hn Ha Hp Hf).
    unfold bind. rewrite Hcall. unfold setTypename, total, Link.setTypename.
    rewrite Hlacks, Harr. unfold alloc, spread. rewrite (right_id_L ∅ (∪)).
    eexists _, _. split; [reflexivity|]. split.
    + simpl. rewrite lookup_alloc. rewrite lookup_insert_eq. reflexivity.
    + simpl. rewrite lookup_alloc. reflexivity.
  - intros h x fieldName n Hh Hx. cbv zeta.
    destruct (lacks_typename h x) eqn:Hlacks.
    + destruct (lacks_typename_ref h x Hlacks) as [l ->]. simpl in Hx.
      destruct (lookup_lt_is_Some_2 h l Hx) as [[m | es m] Hl].
      * rewrite (object_lacks_typename h l m Hl) in Hlacks.
        apply negb_true_iff in Hlacks.
        exact (link_setTypename_twice_object fieldName h l m n Hh Hl Hlacks).
      * rewrite (array_lacks_typename h l es m Hl) in Hlacks.
        apply negb_true_iff in Hlacks.
        exact (link_setTypename_twice_array fieldName h l es m n Hh Hl Hlacks).
    + rewrite (link_setTypename_id x fieldName h Hlacks). simpl.
      rewrite (link_setTypename_id x fieldName h Hlacks). reflexivity.
Qed.

Lemma demo_store_closed : closed_heap Demo.store.
Proof.
  intros l o Hl. unfold Demo.store in Hl.
  destruct l as [|[|[|[|l]]]]; simpl in Hl; try discriminate;
    injection Hl as <-; simpl.
  - apply map_Forall_singleton. exact I.
  - apply map_Forall_insert_2; [exact I|]. apply map_Forall_singleton. exact I.
  - apply map_Forall_insert_2; [exact I|]. apply map_Forall_singleton. exact I.
  - split; [|apply map_Forall_empty]. repeat constructor.
Qed.

Lemma normalizer_discriminator_idempotent_witness :
  (exists r h',
      resolver LinkJs Demo.runtime Demo.view_store "Query"
        {[ "Query" := {[ "item" := VFun 0 ]} ]} "item" (VRef 1) VNull VUndefined
        (Demo.info "item") Demo.store = (Ok r, h')
      /\ get h' r "__typename" = VStr "Item")
  /\ (let r1 := Link.setTypename (VRef 3) "items" Demo.store in
      let r2 := Link.setTypename (fst r1) "items" (snd r1) in
      reify 3 (snd r2) (fst r2) = reify 3 (snd r1) (fst r1)).
Proof.
  destruct normalizer_discriminator_idempotent as [Hres Hidem]. split.
  - destruct (Hres Demo.runtime Demo.view_store "Query"
                {[ "Query" := {[ "item" := VFun 0 ]} ]} "item" (VRef 1) VNull
                VUndefined (Demo.info "item") Demo.store 0 (VRef 0) Demo.store)
      as (r & h' & Hr & HT & _); try reflexivity; try discriminate.
    exists r, h'. split; [exact Hr | exact HT].
  - apply (Hidem Demo.store (VRef 3) "items" 3 demo_store_closed).
    simpl. unfold Demo.store. simpl. lia.
Defined.

(** * Further properties of the code *)

(** ** [capitalizeFirstLetter] and [normalizeTypeDefs] *)

Lemma toUpperCase_idempotent c : toUpperCase (toUpperCase c) = toUpperCase c.
Proof. destruct c as [[] [] [] [] [] [] [] []]; reflexivity. Qed.

(** X1. [capitalizeFirstLetter] changes the first character only: the length
    and everything after the first character are kept, the empty name stays
    empty, and capitalizing twice is capitalizing once. *)
Theorem capitalizeFirstLetter_first_only str :
  String.length (capitalizeFirstLetter str) = String.length str
  /\ String.substring 1 (String.length str) (capitalizeFirstLetter str)
     = String.substring 1 (String.length str) str
  /\ (capitalizeFirstLetter str = EmptyString <-> str = EmptyString)
  /\ capitalizeFirstLetter (capitalizeFirstLetter str) = capitalizeFirstLetter str.
Proof.
  destruct str as [|c rest]; simpl.
  - repeat split; reflexivity.
  - repeat split; try reflexivity; try discriminate.
    rewrite toUpperCase_idempotent. reflexivity.
Qed.

Lemma trimStart_no_space s : starts_with_space (trimStart s) = false.
Proof.
  induction s as [|c s IH]; simpl; [reflexivity|].
  destruct (is_space c) eqn:E; [exact IH | simpl; exact E].
Qed.

Lemma trimStart_id s : starts_with_space s = false -> trimStart s = s.
Proof. destruct s as [|c s]; simpl; [reflexivity|]. intros ->. reflexivity. Qed.

Lemma trimEnd_no_space s : ends_with_space (trimEnd s) = false.
Proof.
  induction s as [|c s IH]; simpl; [reflexivity|].
  destruct (trimEnd s) as [|d t].
  - destruct (is_space c) eqn:E; simpl; [reflexivity | exact E].
  - simpl in *. exact IH.
Qed.

Lemma trimEnd_id s : ends_with_space s = false -> trimEnd s = s.
Proof.
  induction s as [|c s IH]; simpl; [reflexivity|].
  destruct s as [|d s'].
  - simpl. intros ->. reflexivity.
  - intros H. rewrite (IH H). reflexivity.
Qed.

Lemma trimEnd_keeps_start s :
  starts_with_space s = false -> starts_with_space (trimEnd s) = false.
Proof.
  destruct s as [|c s]; simpl; [reflexivity|]. intros E.
  destruct (trimEnd s); [rewrite E|]; simpl; exact E.
Qed.

Lemma trim_no_space s :
  starts_with_space (trim s) = false /\ ends_with_space (trim s) = false.
Proof.
  unfold trim. split.
  - apply trimEnd_keeps_start, trimStart_no_space.
  - apply trimEnd_no_space.
Qed.

Lemma trim_idempotent s : trim (trim s) = trim s.
Proof.
  destruct (trim_no_space s) as [Hs He]. unfold trim in *.
  rewrite (trimStart_id _ Hs). apply trimEnd_id. exact He.
Qed.

(** X2. [normalizeTypeDefs] treats a single definition as the list of that one
    definition, whose normal form is its text without whitespace at either
    end; whitespace around any definition of a list does not matter (a
    definition may be replaced by its trimmed text); and no definition gives
    the empty text. *)
Theorem normalizeTypeDefs_trims host :
  (forall t,
      normalizeTypeDefs host (OneTypeDef t) = normalizeTypeDefs host (ManyTypeDefs [t])
      /\ normalizeTypeDefs host (OneTypeDef t) = trim (typeDef_text host t)
      /\ starts_with_space (normalizeTypeDefs host (OneTypeDef t)) = false
      /\ ends_with_space (normalizeTypeDefs host (OneTypeDef t)) = false)
  /\ (forall l,
         normalizeTypeDefs host
           (ManyTypeDefs (map (fun t => TypeDefString (trim (typeDef_text host t))) l))
         = normalizeTypeDefs host (ManyTypeDefs l))
  /\ normalizeTypeDefs host (ManyTypeDefs []) = EmptyString.
Proof.
  split; [|split; [|reflexivity]].
  - intros t. assert (normalizeTypeDefs host (OneTypeDef t) = trim (typeDef_text host t))
      as E by (destruct t; reflexivity).
    split; [reflexivity|]. split; [exact E|]. rewrite E. apply trim_no_space.
  - intros l. unfold normalizeTypeDefs. f_equal.
    induction l as [|t l IH]; simpl; [reflexivity|].
    rewrite trim_idempotent, IH. destruct t; reflexivity.
Qed.

(** ** The two normalizers *)

(** X3. Both revisions of [setTypename] return what is not an object as it
    is and leave the store alone: [undefined], [null], booleans, numbers,
    strings and functions. *)
Theorem setTypename_scalar rev data fieldName h :
  (forall l, data <> VRef l) ->
  setTypename rev data fieldName h = (Ok data, h).
Proof.
  intros Hn.
  assert (lacks_typename h data = false) as E.
  { unfold lacks_typename.
    destruct data; simpl; rewrite ?andb_false_r; try reflexivity.
    exfalso. exact (Hn l eq_refl). }
  destruct rev; unfold setTypename, total, Link.setTypename, Part000.setTypename;
    rewrite E; reflexivity.
Qed.

Lemma setTypename_scalar_witness :
  setTypename SecondRevision (VStr "x1") "id" Demo.store = (Ok (VStr "x1"), Demo.store).
Proof. apply setTypename_scalar. intros l. discriminate. Defined.

(** X4. Both revisions return a record or an array that carries a truthy
    discriminator as it is, without touching the store. *)
Theorem setTypename_typed rev data fieldName h :
  truthy (get h data "__typename") = true ->
  setTypename rev data fieldName h = (Ok data, h).
Proof.
  intros Ht.
  assert (lacks_typename h data = false) as E
    by (unfold lacks_typename; rewrite Ht, andb_false_r; reflexivity).
  destruct rev; unfold setTypename, total, Link.setTypename, Part000.setTypename;
    rewrite E; reflexivity.
Qed.

Lemma setTypename_typed_witness :
  setTypename SecondRevision (VRef 2) "item" Demo.store = (Ok (VRef 2), Demo.store).
Proof. apply setTypename_typed. reflexivity. Defined.

(** X5. On an array, src/link.js works element by element and in order: the
    array it returns is a new one of the same length, and its element at each
    position is a new record that holds the properties of the original element
    at that position, under the discriminator of the field name where the
    original has none of its own. *)
Theorem link_setTypename_elementwise fieldName h l es m :
  h !! l = Some (Arr es m) ->
  truthy (from_option_value (m !! "__typename")) = false ->
  Forall (closed h) es ->
  let r := Link.setTypename (VRef l) fieldName h in
  fst r <> VRef l
  /\ List.length (elems_of (snd r) (fst r)) = List.length es
  /\ forall i item,
       es !! i = Some item ->
       exists x,
         elems_of (snd r) (fst r) !! i = Some (VRef x)
         /\ List.length h <= x
         /\ own_props (snd r) (VRef x)
            = spread {[ "__typename" := VStr (capitalizeFirstLetter fieldName) ]}
                (own_props h item).
Proof.
  intros Hl Ht Hc. cbv zeta.
  rewrite (link_setTypename_array fieldName h l es m Hl Ht Hc). simpl fst. simpl snd.
  assert (l < List.length h) as Hlt by (eapply lookup_lt_Some; exact Hl).
  assert (elems_of
            (h ++ (typed_item (capitalizeFirstLetter fieldName) h <$> es)
               ++ [Arr (VRef <$> seq (List.length h) (List.length es)) ∅])
            (VRef (List.length h + List.length es))
          = VRef <$> seq (List.length h) (List.length es)) as He.
  { unfold elems_of. rewrite app_assoc, lookup_app_r;
      rewrite length_app, length_fmap; [|lia].
    replace (_ - _) with 0 by lia. reflexivity. }
  rewrite He. split; [|split].
  - intros E. injection E as E. lia.
  - rewrite length_fmap, length_seq. reflexivity.
  - intros i item Hi.
    assert (i < List.length es) as Hi' by (eapply lookup_lt_Some; exact Hi).
    exists (List.length h + i). split; [|split; [lia|]].
    + rewrite list_lookup_fmap, lookup_seq_lt by exact Hi'. reflexivity.
    + unfold own_props at 1. rewrite lookup_app_r by lia.
      replace (_ - _) with i by lia.
      rewrite lookup_app_l by (rewrite length_fmap; exact Hi').
      rewrite list_lookup_fmap, Hi. reflexivity.
Qed.

Lemma link_setTypename_elementwise_witness :
  exists x,
    elems_of (snd (Link.setTypename (VRef 3) "items" Demo.store))
             (fst (Link.setTypename (VRef 3) "items" Demo.store)) !! 0 = Some (VRef x)
    /\ 4 <= x
    /\ own_props (snd (Link.setTypename (VRef 3) "items" Demo.store)) (VRef x)
       = spread {[ "__typename" := VStr "Items" ]} (own_props Demo.store (VRef 2)).
Proof.
  refine (proj2 (proj2 (link_setTypename_elementwise "items" Demo.store 3 [VRef 2] ∅
                          eq_refl eq_refl _)) 0 (VRef 2) eq_refl).
  repeat constructor.
Defined.

(** X6. src/link.js never changes what the caller already holds: every object
    of the store it was given is still there as it was, and on a closed store
    every value unfolds, at every depth, to what it unfolded to before. *)
Theorem link_setTypename_preserves data fieldName h :
  (forall l o, h !! l = Some o ->
               snd (Link.setTypename data fieldName h) !! l = Some o)
  /\ (closed_heap h ->
      forall n v, closed h v ->
                  reify n (snd (Link.setTypename data fieldName h)) v = reify n h v).
Proof.
  destruct (link_setTypename_grows data fieldName h) as [ext ->]. split.
  - intros l o Hl. apply lookup_app_l_Some. exact Hl.
  - intros Hh n v Hv. apply reify_app; assumption.
Qed.

Lemma link_setTypename_preserves_witness :
  reify 2 (snd (Link.setTypename (VRef 3) "items" Demo.store)) (VRef 3)
  = reify 2 Demo.store (VRef 3).
Proof.
  apply (proj2 (link_setTypename_preserves (VRef 3) "items" Demo.store)
           demo_store_closed 2 (VRef 3)).
  repeat constructor.
Defined.

(** X7. src/link.js keeps stores well formed: on a closed store and a closed
    value, the store it returns is closed and so is its result. *)
Theorem link_setTypename_closed data fieldName h :
  closed_heap h -> closed h data ->
  closed_heap (snd (Link.setTypename data fieldName h))
  /\ closed (snd (Link.setTypename data fieldName h))
            (fst (Link.setTypename data fieldName h)).
Proof.
  intros Hh Hd. destruct (lacks_typename h data) eqn:Hlacks.
  - destruct (lacks_typename_ref h data Hlacks) as [l ->]. simpl in Hd.
    destruct (lookup_lt_is_Some_2 h l Hd) as [[m | es m] Hl].
    + rewrite (object_lacks_typename h l m Hl) in Hlacks.
      apply negb_true_iff in Hlacks.
      rewrite (link_setTypename_object fieldName h l m Hl Hlacks). simpl. split.
      * apply closed_heap_app; [exact Hh|]. constructor; [|constructor].
        simpl. apply map_Forall_insert_2; [exact I|].
        exact (closed_obj_app h _ (Obj m) (Hh l _ Hl)).
      * rewrite length_app. simpl. lia.
    + rewrite (array_lacks_typename h l es m Hl) in Hlacks.
      apply negb_true_iff in Hlacks.
      rewrite (link_setTypename_array fieldName h l es m Hl Hlacks
                 (proj1 (Hh l _ Hl))). simpl. split.
      * apply closed_heap_app; [exact Hh|]. apply Forall_app. split.
        -- apply Forall_fmap, Forall_forall. intros item _.
           apply closed_obj_app, typed_item_closed, Hh.
        -- constructor; [|constructor]. split; [|apply map_Forall_empty].
           apply seq_refs_closed. rewrite !length_app, length_fmap. simpl. lia.
      * rewrite !length_app, length_fmap. simpl. lia.
  - rewrite (link_setTypename_id data fieldName h Hlacks). simpl. split; assumption.
Qed.

Lemma link_setTypename_closed_witness :
  closed_heap (snd (Link.setTypename (VRef 3) "items" Demo.store)).
Proof.
  apply (link_setTypename_closed (VRef 3) "items" Demo.store demo_store_closed).
  repeat constructor.
Defined.

Lemma put_typename_object T h l m :
  h !! l = Some (Obj m) ->
  put (VRef l) "__typename" (VStr T) h
  = (Ok tt, <[l := Obj (<[ "__typename" := VStr T ]> m)]> h).
Proof. intros Hl. simpl. rewrite Hl. reflexivity. Qed.

(** X8. On a record without a discriminator, the second revision returns the
    record itself and writes the discriminator into it; it creates no object,
    touches no other object, and leaves every other property of the record as
    it was. *)
Theorem part000_setTypename_in_place fieldName h l m :
  h !! l = Some (Obj m) ->
  truthy (from_option_value (m !! "__typename")) = false ->
  let r := Part000.setTypename (VRef l) fieldName h in
  fst r = Ok (VRef l)
  /\ List.length (snd r) = List.length h
  /\ get (snd r) (VRef l) "__typename" = VStr (capitalizeFirstLetter fieldName)
  /\ (forall k, k <> "__typename" -> get (snd r) (VRef l) k = get h (VRef l) k)
  /\ (forall l', l' <> l -> snd r !! l' = h !! l').
Proof.
  intros Hl Ht. cbv zeta.
  assert (l < List.length h) as Hlt by (eapply lookup_lt_Some; exact Hl).
  assert (Part000.setTypename (VRef l) fieldName h
          = (Ok (VRef l),
             <[l := Obj (<[ "__typename" := VStr (capitalizeFirstLetter fieldName) ]> m)]> h))
    as E.
  { unfold Part000.setTypename.
    rewrite (object_lacks_typename h l m Hl), Ht. simpl. rewrite Hl.
    unfold bind. simpl. rewrite Hl. reflexivity. }
  rewrite E. simpl fst. simpl snd.
  split; [reflexivity|]. split; [apply length_insert|]. split; [|split].
  - simpl. rewrite list_lookup_insert_eq by exact Hlt.
    rewrite lookup_insert_eq. reflexivity.
  - intros k Hk. simpl. rewrite list_lookup_insert_eq by exact Hlt.
    rewrite Hl, lookup_insert_ne by congruence. reflexivity.
  - intros l' Hne. apply list_lookup_insert_ne. congruence.
Qed.

Lemma part000_setTypename_in_place_witness :
  fst (Part000.setTypename (VRef 0) "item" Demo.store) = Ok (VRef 0)
  /\ get (snd (Part000.setTypename (VRef 0) "item" Demo.store)) (VRef 0) "id"
     = VStr "x1".
Proof.
  destruct (part000_setTypename_in_place "item" Demo.store 0 {[ "id" := VStr "x1" ]}
              eq_refl eq_refl) as (H1 & _ & _ & H4 & _).
  split; [exact H1|]. rewrite (H4 "id") by discriminate. reflexivity.
Defined.

Lemma get_app h e v k : closed h v -> get (h ++ e) v k = get h v k.
Proof.
  destruct v; simpl; try reflexivity. intros Hl.
  rewrite lookup_app_l by exact Hl. reflexivity.
Qed.

(** Writing the discriminator into an object of the store. *)
Lemma put_typename T h l :
  l < List.length h ->
  exists h1,
    put (VRef l) "__typename" (VStr T) h = (Ok tt, h1)
    /\ List.length h1 = List.length h
    /\ get h1 (VRef l) "__typename" = VStr T
    /\ forall v, get h v "__typename" = VStr T -> get h1 v "__typename" = VStr T.
Proof.
  intros Hlt. destruct (lookup_lt_is_Some_2 h l Hlt) as [o Hl].
  assert (forall o', get (<[l := o']> h) (VRef l) "__typename" = VStr T ->
            forall v, get h v "__typename" = VStr T ->
                      get (<[l := o']> h) v "__typename" = VStr T) as Hkeep.
  { intros o' Ho' v Hv. destruct v; try exact Hv.
    destruct (decide (l0 = l)) as [-> | Hne]; [exact Ho'|].
    simpl in *. rewrite list_lookup_insert_ne by congruence. exact Hv. }
  destruct o as [m | es m]; simpl; rewrite Hl; eexists;
    (split; [reflexivity|]); (split; [apply length_insert|]).
  - assert (get (<[l := Obj (<[ "__typename" := VStr T ]> m)]> h) (VRef l) "__typename"
            = VStr T) as E
      by (simpl; rewrite list_lookup_insert_eq by exact Hlt;
          rewrite lookup_insert_eq; reflexivity).
    split; [exact E | exact (Hkeep _ E)].
  - assert (get (<[l := Arr es (<[ "__typename" := VStr T ]> m)]> h) (VRef l) "__typename"
            = VStr T) as E
      by (simpl; rewrite list_lookup_insert_eq by exact Hlt;
          rewrite lookup_insert_eq; reflexivity).
    split; [exact E | exact (Hkeep _ E)].
Qed.

Lemma part000_map_items_objects T es : forall h,
  Forall (is_object_in h) es ->
  exists h',
    Part000.map_items T es h = (Ok es, h')
    /\ List.length h' = List.length h
    /\ (forall v, get h v "__typename" = VStr T -> get h' v "__typename" = VStr T)
    /\ Forall (fun e => get h' e "__typename" = VStr T) es.
Proof.
  induction es as [|e es IH]; intros h Hes.
  - exists h. simpl. unfold ret. repeat split; auto.
  - inversion Hes as [|? ? He Hrest]; subst.
    destruct e; simpl in He; try contradiction.
    destruct (put_typename T h l He) as (h1 & Hput & Hlen & Hget & Hkeep).
    destruct (IH h1) as (h' & Hmap & Hlen' & Hkeep' & Hall).
    { eapply Forall_impl; [exact Hrest|]. intros v. destruct v; simpl; auto.
      rewrite Hlen. auto. }
    exists h'. split; [|split; [congruence|split]].
    + change (Part000.map_items T (VRef l :: es) h)
        with ((let* _ := put (VRef l) "__typename" (VStr T) in
               let* rs := Part000.map_items T es in ret (VRef l :: rs)) h).
      unfold bind. rewrite Hput, Hmap. reflexivity.
    + intros v Hv. apply Hkeep', Hkeep, Hv.
    + constructor; [apply Hkeep', Hget | exact Hall].
Qed.

(** X9. On an array of records, the second revision returns a new array that
    holds the very same records in the same order, each now with the
    discriminator of the field name, whatever discriminator it had; no record
    is created. *)
Theorem part000_setTypename_array fieldName h l es m :
  h !! l = Some (Arr es m) ->
  truthy (from_option_value (m !! "__typename")) = false ->
  Forall (is_object_in h) es ->
  let r := Part000.setTypename (VRef l) fieldName h in
  fst r = Ok (VRef (List.length h))
  /\ List.length (snd r) = S (List.length h)
  /\ elems_of (snd r) (VRef (List.length h)) = es
  /\ Forall (fun e => get (snd r) e "__typename"
                      = VStr (capitalizeFirstLetter fieldName)) es.
Proof.
  intros Hl Ht Hes. cbv zeta.
  destruct (part000_map_items_objects (capitalizeFirstLetter fieldName) es h Hes)
    as (h' & Hmap & Hlen & _ & Hall).
  assert (Part000.setTypename (VRef l) fieldName h
          = (Ok (VRef (List.length h)), h' ++ [Arr es ∅])) as E.
  { unfold Part000.setTypename.
    rewrite (array_lacks_typename h l es m Hl), Ht. simpl. rewrite Hl.
    unfold bind. rewrite Hmap. unfold total, alloc. rewrite Hlen. reflexivity. }
  rewrite E. simpl fst. simpl snd.
  split; [reflexivity|]. split; [rewrite length_app; simpl; lia|]. split.
  - unfold elems_of. rewrite <- Hlen, lookup_alloc. reflexivity.
  - rewrite Forall_forall in *. intros e He. rewrite get_app; [exact (Hall e He)|].
    specialize (Hes e He). destruct e; simpl in *; try contradiction. lia.
Qed.

Lemma part000_setTypename_array_witness :
  elems_of (snd (Part000.setTypename (VRef 3) "items" Demo.store)) (VRef 4) = [VRef 2].
Proof.
  refine (proj1 (proj2 (proj2 (part000_setTypename_array "items" Demo.store 3
                                 [VRef 2] ∅ eq_refl eq_refl _)))).
  repeat constructor.
Defined.

Lemma part000_map_items_nullish T es : forall h,
  Exists (fun v => nullish v = true) es ->
  exists msg h', Part000.map_items T es h = (Throw msg, h').
Proof.
  induction es as [|e es IH]; intros h Hex; [inversion Hex|].
  change (Part000.map_items T (e :: es) h)
    with ((let* _ := put e "__typename" (VStr T) in
           let* rs := Part000.map_items T es in ret (e :: rs)) h).
  unfold bind.
  destruct (put e "__typename" (VStr T) h) as [[[]|msg] h1] eqn:Hput;
    [|eexists _, _; reflexivity].
  inversion Hex as [? ? Hn | ? ? Hrest]; subst.
  - destruct e; simpl in Hn; try discriminate; simpl in Hput; discriminate.
  - destruct (IH h1 Hrest) as (msg & h' & ->). eexists _, _. reflexivity.
Qed.

(** X10. On an array that holds [null] or [undefined] somewhere, the second
    revision throws (the assignment [item.__typename = ...] has no object to
    write to) and returns no array, while src/link.js returns the new array
    with the record [{ __typename }] at that position. *)
Theorem part000_setTypename_nullish_element fieldName h l es m i item :
  h !! l = Some (Arr es m) ->
  truthy (from_option_value (m !! "__typename")) = false ->
  es !! i = Some item -> nullish item = true ->
  (exists msg, fst (Part000.setTypename (VRef l) fieldName h) = Throw msg)
  /\ (Forall (closed h) es ->
      exists x,
        elems_of (snd (Link.setTypename (VRef l) fieldName h))
                 (fst (Link.setTypename (VRef l) fieldName h)) !! i = Some (VRef x)
        /\ own_props (snd (Link.setTypename (VRef l) fieldName h)) (VRef x)
           = {[ "__typename" := VStr (capitalizeFirstLetter fieldName) ]}).
Proof.
  intros Hl Ht Hi Hn. split.
  - destruct (part000_map_items_nullish (capitalizeFirstLetter fieldName) es h)
      as (msg & h' & Hmap).
    { apply Exists_exists. exists item. split; [|exact Hn].
      eapply list_elem_of_lookup_2. exact Hi. }
    exists msg. unfold Part000.setTypename.
    rewrite (array_lacks_typename h l es m Hl), Ht. simpl. rewrite Hl.
    unfold bind. rewrite Hmap. reflexivity.
  - intros Hc.
    assert (i < List.length es) as Hi' by (eapply lookup_lt_Some; exact Hi).
    rewrite (link_setTypename_array fieldName h l es m Hl Ht Hc). simpl fst. simpl snd.
    exists (List.length h + i). split.
    + unfold elems_of. rewrite app_assoc, lookup_app_r;
        rewrite length_app, length_fmap; [|lia].
      replace (_ - _) with 0 by lia. simpl.
      rewrite list_lookup_fmap, lookup_seq_lt by exact Hi'. reflexivity.
    + unfold own_props at 1. rewrite lookup_app_r by lia.
      replace (_ - _) with i by lia.
      rewrite lookup_app_l by (rewrite length_fmap; exact Hi').
      rewrite list_lookup_fmap, Hi. simpl. unfold spread.
      destruct item; simpl in Hn; try discriminate; simpl;
        apply (left_id_L ∅ (∪)).
Qed.

Lemma part000_setTypename_nullish_element_witness :
  exists msg, fst (Part000.setTypename (VRef 0) "items" Samples.store) = Throw msg.
Proof.
  exact (proj1 (part000_setTypename_nullish_element "items" Samples.store 0 [VNull] ∅
                  0 VNull eq_refl eq_refl eq_refl eq_refl)).
Defined.

(** ** The Field Resolver, further *)

(** X11. Without a kappa directive the resolver needs a parent it can read:
    on the parent [null] it throws, since only [undefined] is replaced by the
    default [{}]; and on [undefined] it does what it does on a new empty
    record. *)
Theorem resolver_root_default rev host kappa type resolvers fieldName args
    context info h :
  directive_kappa (info_directives info) = None ->
  (exists msg,
      resolver rev host kappa type resolvers fieldName VNull args context info h
      = (Throw msg, h))
  /\ resolver rev host kappa type resolvers fieldName VUndefined args context info h
     = resolver rev host kappa type resolvers fieldName (VRef (List.length h)) args
         context info (h ++ [Obj ∅]).
Proof.
  intros Hdk. split.
  - eexists. unfold resolver, bind. simpl. rewrite Hdk. reflexivity.
  - unfold resolver, bind at 1. unfold bind at 5. reflexivity.
Qed.

Lemma resolver_root_default_witness :
  resolver LinkJs Demo.runtime Demo.view_store "Query" ∅ "item" VUndefined VNull
    VUndefined (Demo.info "item") Demo.store
  = (Ok VNull, Demo.store ++ [Obj ∅]).
Proof.
  rewrite (proj2 (resolver_root_default LinkJs Demo.runtime Demo.view_store "Query"
                    ∅ "item" VNull VUndefined (Demo.info "item") Demo.store eq_refl)).
  reflexivity.
Defined.

(** The resolver on a parent that can be read, step by step. *)
Lemma resolver_eq rev host kappa type (resolvers : ResolverMap) fieldName
    rootValue args context info h :
  rootValue <> VUndefined -> rootValue <> VNull ->
  resolver rev host kappa type resolvers fieldName rootValue args context info h =
    match directive_kappa (info_directives info) with
    | Some dk =>
        api_call host kappa (from_option_value (dk !! "view"))
          (from_option_value (dk !! "method")) (js_or args VUndefined) h
    | None =>
        if defined (get h rootValue (resultKey info))
           || defined (get h rootValue fieldName)
        then (Ok (js_or (get h rootValue (resultKey info)) (get h rootValue fieldName)), h)
        else
          match resolvers !! to_key host h
                                (js_or (get h rootValue "__typename") (VStr type)) with
          | Some resolverMap =>
              match from_option_value (resolverMap !! fieldName) with
              | VFun f =>
                  (let* data := call_resolver host f rootValue args context info in
                   setTypename rev data fieldName) h
              | entry => (Ok entry, h)
              end
          | None => (Ok VNull, h)
          end
    end.
Proof.
  intros Hu Hn. unfold resolver, bind at 1.
  rewrite default_root_defined by assumption.
  destruct (directive_kappa (info_directives info)); [reflexivity|].
  unfold bind at 1. rewrite get_prop_ok by assumption.
  unfold bind at 1. rewrite get_prop_ok by assumption.
  destruct (defined (get h rootValue (resultKey info))) eqn:Ea;
    [reflexivity|].
  destruct (defined (get h rootValue fieldName)) eqn:Ep; [reflexivity|].
  simpl. unfold bind at 1 2, read.
  destruct (resolvers !! _) as [resolverMap|].
  - destruct (from_option_value (resolverMap !! fieldName)); reflexivity.
  - destruct (get h rootValue (resultKey info)); try discriminate.
    destruct (get h rootValue fieldName); try discriminate.
    destruct (negb _); reflexivity.
Qed.

Lemma js_or_truthy a b : truthy a = true -> js_or a b = a.
Proof. intros H. unfold js_or. rewrite H. reflexivity. Qed.

Lemma typed_root_defined h rootValue :
  truthy (get h rootValue "__typename") = true ->
  rootValue <> VUndefined /\ rootValue <> VNull.
Proof. destruct rootValue; simpl; intros H; try discriminate; split; discriminate. Qed.

(** X12. Fields of a parent that carries a discriminator are resolved by the
    resolver map of the parent's type: the type of the operation plays no
    role for them. *)
Theorem resolver_nested_dispatch rev host kappa type1 type2 resolvers fieldName
    rootValue args context info h :
  truthy (get h rootValue "__typename") = true ->
  resolver rev host kappa type1 resolvers fieldName rootValue args context info h
  = resolver rev host kappa type2 resolvers fieldName rootValue args context info h.
Proof.
  intros Ht. destruct (typed_root_defined h rootValue Ht) as [Hu Hn].
  rewrite !resolver_eq by assumption.
  rewrite (js_or_truthy _ (VStr type1) Ht), (js_or_truthy _ (VStr type2) Ht).
  reflexivity.
Qed.

Lemma resolver_nested_dispatch_witness :
  resolver LinkJs Demo.runtime Demo.view_store "Query"
    {[ "Foo" := {[ "label" := VStr "a foo" ]} ]} "label" (VRef 2) VNull VUndefined
    (Demo.info "label") Demo.store
  = (Ok (VStr "a foo"), Demo.store).
Proof.
  rewrite (resolver_nested_dispatch LinkJs Demo.runtime Demo.view_store "Query"
             "Mutation" {[ "Foo" := {[ "label" := VStr "a foo" ]} ]} "label" (VRef 2)
             VNull VUndefined (Demo.info "label") Demo.store eq_refl).
  reflexivity.
Defined.

(** X13. A failure of a function of the resolver map is the failure of the
    resolver: the field is rejected with the same error, in the store the
    function left, and nothing is normalized. So is a failure of the view
    method that a kappa directive names. *)
Theorem resolver_propagates_failure rev host kappa type (resolvers : ResolverMap)
    fieldName rootValue args context info h f msg h1 :
  rootValue <> VUndefined -> rootValue <> VNull ->
  (directive_kappa (info_directives info) = None ->
   get h rootValue (resultKey info) = VUndefined ->
   get h rootValue fieldName = VUndefined ->
   resolvers !! to_key host h (js_or (get h rootValue "__typename") (VStr type))
     ≫= (fun resolverMap => resolverMap !! fieldName) = Some (VFun f) ->
   call_resolver host f rootValue args context info h = (Throw msg, h1) ->
   resolver rev host kappa type resolvers fieldName rootValue args context info h
   = (Throw msg, h1))
  /\ (forall dk,
        directive_kappa (info_directives info) = Some dk ->
        api_method host kappa h dk = Some (VFun f) ->
        call_method host f (js_or args VUndefined) h = (Throw msg, h1) ->
        resolver rev host kappa type resolvers fieldName rootValue args context info h
        = (Throw msg, h1)).
Proof.
  intros Hu Hn. split.
  - intros Hdk Ha Hp Hf Hcall.
    rewrite (resolver_function_entry rev host kappa type resolvers fieldName
               rootValue args context info h f Hdk Hu Hn Ha Hp Hf).
    unfold bind. rewrite Hcall. reflexivity.
  - intros dk Hdk Hm Hcall. rewrite resolver_eq, Hdk by assumption.
    unfold api_call. unfold api_method in Hm.
    destruct (api kappa !! _) as [members|]; simpl in Hm; [|discriminate].
    rewrite Hm. exact Hcall.
Qed.

Lemma resolver_propagates_failure_witness :
  resolver LinkJs Samples.failing Demo.view_store "Query"
    {[ "Query" := {[ "item" := VFun 0 ]} ]} "item" (VRef 1) VNull VUndefined
    (Demo.info "item") Demo.store
  = (Throw "unavailable", Demo.store).
Proof.
  apply (proj1 (resolver_propagates_failure LinkJs Samples.failing Demo.view_store
                  "Query" {[ "Query" := {[ "item" := VFun 0 ]} ]} "item" (VRef 1)
                  VNull VUndefined (Demo.info "item") Demo.store 0 "unavailable"
                  Demo.store ltac:(discriminate) ltac:(discriminate)));
    reflexivity.
Defined.

(** X14. Without a kappa directive, the resolver calls a function only when
    the parent has no data for the field: when [rootValue[resultKey]] or
    [rootValue[fieldName]] is defined, the result is read off the parent,
    whatever the resolver map holds, and the store is left as it is. The store
    is also left as it is when the entry found in the resolver map is not a
    function. *)
Theorem resolver_reads_parent_first rev host kappa type (resolvers : ResolverMap)
    fieldName rootValue args context info h :
  rootValue <> VUndefined -> rootValue <> VNull ->
  directive_kappa (info_directives info) = None ->
  (defined (get h rootValue (resultKey info)) || defined (get h rootValue fieldName)
   = true ->
   resolver rev host kappa type resolvers fieldName rootValue args context info h
   = (Ok (js_or (get h rootValue (resultKey info)) (get h rootValue fieldName)), h))
  /\ ((forall t resolverMap k f,
          resolvers !! t = Some resolverMap -> resolverMap !! k <> Some (VFun f)) ->
      snd (resolver rev host kappa type resolvers fieldName rootValue args context
             info h) = h).
Proof.
  intros Hu Hn Hdk. rewrite resolver_eq, Hdk by assumption. split.
  - intros ->. reflexivity.
  - intros Hplain. destruct (_ || _); [reflexivity|].
    destruct (resolvers !! _) as [resolverMap|] eqn:Hmap; [|reflexivity].
    destruct (resolverMap !! fieldName) as [entry|] eqn:He; [|reflexivity].
    simpl. destruct entry; try reflexivity.
    exfalso. exact (Hplain _ _ _ _ Hmap He).
Qed.

Lemma resolver_reads_parent_first_witness :
  resolver LinkJs Samples.failing Demo.view_store "Query"
    {[ "Query" := {[ "count" := VFun 0 ]} ]} "count" (VRef 1) VNull VUndefined
    (Demo.info "count") Demo.store
  = (Ok (VNum 5), Demo.store).
Proof.
  apply (proj1 (resolver_reads_parent_first LinkJs Samples.failing Demo.view_store
                  "Query" {[ "Query" := {[ "count" := VFun 0 ]} ]} "count" (VRef 1)
                  VNull VUndefined (Demo.info "count") Demo.store
                  ltac:(discriminate) ltac:(discriminate) eq_refl)).
  reflexivity.
Defined.

(** X15. A kappa directive that names a view the store does not have, or a
    member of the view that is not a function, makes the field throw; what the
    parent holds and the resolver map are no fallback. *)
Theorem resolver_unknown_method rev host kappa type resolvers fieldName rootValue
    args context info dk h :
  rootValue <> VUndefined -> rootValue <> VNull ->
  directive_kappa (info_directives info) = Some dk ->
  (forall f, api_method host kappa h dk <> Some (VFun f)) ->
  exists msg,
    resolver rev host kappa type resolvers fieldName rootValue args context info h
    = (Throw msg, h).
Proof.
  intros Hu Hn Hdk Hno. rewrite resolver_eq, Hdk by assumption.
  unfold api_call. unfold api_method in Hno.
  destruct (api kappa !! _) as [members|]; simpl in Hno; [|eexists; reflexivity].
  destruct (members !! _) as [[]|] eqn:Hm; try (eexists; reflexivity).
  exfalso. exact (Hno _ eq_refl).
Qed.

Lemma resolver_unknown_method_witness :
  exists msg,
    resolver LinkJs Demo.runtime Demo.view_store "Query" ∅ "count" (VRef 1) VNull
      VUndefined
      {| resultKey := "count";
         info_directives :=
           getDirectiveInfo ∅ [Demo.kappa_directive "items" "method" "missing"] |}
      Demo.store
    = (Throw msg, Demo.store).
Proof.
  apply (resolver_unknown_method LinkJs Demo.runtime Demo.view_store "Query" ∅
           "count" (VRef 1) VNull VUndefined
           {| resultKey := "count";
              info_directives :=
                getDirectiveInfo ∅ [Demo.kappa_directive "items" "method" "missing"] |}
           (<[ "method" := VStr "missing" ]> {[ "view" := VStr "items" ]})
           Demo.store ltac:(discriminate) ltac:(discriminate) eq_refl).
  intros f. vm_compute. discriminate.
Defined.

(** ** The Operation Dispatcher, further *)

(** X16. The context of the operation accumulates: a link with type
    definitions appends one schema entry after the entries that are there and
    keeps them in order, a link without leaves the list alone; either way the
    reference to the view store is set and every other key is kept. Two links
    in a row leave both entries, in the order of the links. *)
Theorem extend_context_accumulates rev host link op :
  ctx_kappa (context (extend_context rev host link op)) = Some (kappa link)
  /\ ctx_rest (context (extend_context rev host link op)) = ctx_rest (context op)
  /\ ctx_schemas (context (extend_context rev host link op))
     = match typeDefs_given (typeDefs link) with
       | Some t =>
           Some (default [] (ctx_schemas (context op))
                 ++ [Samples.schema_of (normalizeTypeDefs host t)])
       | None => ctx_schemas (context op)
       end
  /\ forall link2 t t2,
       typeDefs_given (typeDefs link) = Some t ->
       typeDefs_given (typeDefs link2) = Some t2 ->
       ctx_schemas (context (extend_context rev host link2
                               (extend_context rev host link op)))
       = Some (default [] (ctx_schemas (context op))
               ++ [Samples.schema_of (normalizeTypeDefs host t);
                   Samples.schema_of (normalizeTypeDefs host t2)]).
Proof.
  unfold extend_context.
  destruct (typeDefs_given (typeDefs link)) as [t|] eqn:E; simpl;
    repeat split; try reflexivity; try discriminate.
  intros link2 t' t2 [= <-] ->. simpl. rewrite <- app_assoc. reflexivity.
Qed.

Lemma extend_context_accumulates_witness :
  ctx_schemas (context (extend_context LinkJs Demo.runtime (Samples.link_with "type B")
                          (extend_context LinkJs Demo.runtime
                             (Samples.link_with " type A ")
                             (Demo.operation Demo.plain_document))))
  = Some [Samples.schema_of "type A"; Samples.schema_of "type B"].
Proof.
  exact (proj2 (proj2 (proj2 (extend_context_accumulates LinkJs Demo.runtime
                                (Samples.link_with " type A ")
                                (Demo.operation Demo.plain_document))))
           (Samples.link_with "type B") _ _ eq_refl eq_refl).
Defined.

(** X17. An operation that holds the kappa directive and whose main
    definition is a query or a mutation is run by this link alone: [request]
    returns the observable of [runQuery] for the capitalized kind, on the
    operation with its context extended and with the resolver map of this
    request (a factory is called once); [forward] plays no role, so fields
    without the directive are not passed on; nothing is reported. *)
Theorem request_runs_query rev host (R : Type) link op
    (forward : option (Operation -> R)) h def :
  hasDirectives_kappa (query op) = true ->
  getMainDefinition (query op) = Ok def ->
  capitalizeFirstLetter (def_operation def) = "Query"
  \/ capitalizeFirstLetter (def_operation def) = "Mutation" ->
  request rev host R link op forward h =
    (Ok (RunQuery {| q_type := capitalizeFirstLetter (def_operation def);
                     q_resolvers := resolvers_of link;
                     q_operation := extend_context rev host link op |}),
     {| fx_operation := extend_context rev host link op;
        fx_factory_calls := factory_calls link;
        fx_console := [] |}).
Proof.
  intros Hk Hdef Htype. unfold request.
  rewrite extend_context_query, Hk, Hdef. simpl.
  unfold resolvers_of, factory_calls, runQuery.
  destruct (resolvers link); destruct Htype as [-> | ->]; reflexivity.
Qed.

Lemma request_runs_query_witness :
  fst (request LinkJs Demo.runtime nat (Samples.link_with "type A")
         (Demo.operation Samples.query_document)
         (Some (fun _ => 0)) Demo.store)
  = Ok (RunQuery
          {| q_type := "Query"; q_resolvers := ∅;
             q_operation :=
               extend_context LinkJs Demo.runtime (Samples.link_with "type A")
                 (Demo.operation Samples.query_document) |}).
Proof.
  rewrite (request_runs_query LinkJs Demo.runtime nat (Samples.link_with "type A")
             (Demo.operation Samples.query_document) (Some (fun _ => 0)) Demo.store
             (OperationDefinition "query" []
                [ Field None "item" []
                    [Demo.kappa_directive "items" "method" "getItem"]
                    [Field None "id" [] [] []];
                  Field None "other" [] [] [] ])
             eq_refl eq_refl (or_introl eq_refl)).
  reflexivity.
Defined.

(** X18. A subscription whose kappa directive sits on no field (on the
    operation, a fragment spread or an inline fragment) passes the ownership
    test of [request] but gives [runSubscription] no field to bind: with a
    [forward] the operation is passed on, and without one the request throws,
    reading the name of a field that is not there. *)
Theorem request_subscription_without_field rev host (R : Type) link op h def :
  hasDirectives_kappa (query op) = true ->
  getMainDefinition (query op) = Ok def ->
  capitalizeFirstLetter (def_operation def) = "Subscription" ->
  document_annotated_fields (query op) = [] ->
  (forall forward : Operation -> R,
      fst (request rev host R link op (Some forward) h)
      = Ok (Forwarded (forward (extend_context rev host link op))))
  /\ exists msg, fst (request rev host R link op None h) = Throw msg.
Proof.
  intros Hk Hdef Htype Hnone.
  assert (visit (query (extend_context rev host link op)) = None) as Hv
    by (rewrite extend_context_query, visit_head, Hnone; reflexivity).
  split; [intros forward | eexists];
    unfold request; rewrite extend_context_query, Hk, Hdef; simpl;
    rewrite Htype; simpl; unfold runSubscription; rewrite Hv;
    destruct (resolvers link); reflexivity.
Qed.

Lemma request_subscription_without_field_witness :
  exists msg,
    fst (request LinkJs Demo.runtime nat (Demo.link ∅)
           (Demo.operation Samples.misplaced_document) None Demo.store)
    = Throw msg.
Proof.
  exact (proj2 (request_subscription_without_field LinkJs Demo.runtime nat
                  (Demo.link ∅) (Demo.operation Samples.misplaced_document)
                  Demo.store
                  (OperationDefinition "subscription"
                     [Demo.kappa_directive "items" "event" "added"]
                     [ Field None "onItem" [] [] [Field None "id" [] [] []] ])
                  eq_refl eq_refl eq_refl eq_refl)).
Defined.

(** ** The Subscription Manager, further *)

(** X19. A field whose kappa directive has no arguments falls back on the
    subscription resolvers; when there is none for the field either,
    [runSubscription] reports it and still returns a subscription, which binds
    nothing: subscribing, readiness and cancellation succeed and leave the
    listeners, the emissions and the store as they were. *)
Theorem subscription_without_resolver host kappa (R : Type) type
    (resolvers : ResolverMap) op (forward : option (Operation -> R)) h field others
    observer w :
  document_annotated_fields (query op) = field :: others ->
  directive_kappa (getDirectiveInfoFromField field ∅) = None ->
  default ∅ (resolvers !! type) !! field_name field = None ->
  w_waiting w = [] ->
  exists s,
    runSubscription R type resolvers op forward h
    = (Ok (RunSubscription s), ["No resolver registered for " +:+ field_name field])
    /\ exists w',
         (let* handle := subscribe host kappa s observer in
          let* _ := ready_fires host kappa in
          unsubscribe host kappa handle) w = (Ok tt, w')
         /\ w_listeners w' = w_listeners w
         /\ w_emitted w' = w_emitted w
         /\ w_heap w' = w_heap w.
Proof.
  intros Hdoc Hdk Hnone Hw.
  assert (visit (query op) = Some field) as Hv by (rewrite visit_head, Hdoc; reflexivity).
  unfold runSubscription. rewrite Hv, Hdk, Hnone. simpl.
  eexists. split; [reflexivity|].
  unfold bind, subscribe, ready, ready_fires, unsubscribe. simpl.
  destruct (w_ready w) eqn:Hr; simpl.
  - unfold run_callback, bind, bind_resolver, ret. simpl. rewrite Hw. simpl.
    rewrite list_lookup_insert_eq by (rewrite length_app; simpl; lia).
    simpl. eexists. split; [reflexivity|]. auto.
  - rewrite Hw. simpl. unfold bind, run_callback, bind, bind_resolver, ret. simpl.
    rewrite list_lookup_insert_eq by (rewrite length_app; simpl; lia).
    simpl. eexists. split; [reflexivity|]. auto.
Qed.

Lemma subscription_without_resolver_witness :
  exists s,
    runSubscription nat "Subscription" ∅ (Demo.operation Samples.bare_document)
      None Demo.store
    = (Ok (RunSubscription s), ["No resolver registered for onItem"]).
Proof.
  assert (default ∅ ((∅ : ResolverMap) !! "Subscription") !! "onItem" = None)
    as Hnone by reflexivity.
  destruct (subscription_without_resolver Demo.runtime Demo.view_store nat
              "Subscription" (∅ : ResolverMap)
              (Demo.operation Samples.bare_document) None Demo.store
              (Field None "onItem" [] [{| d_name := "kappa"; d_arguments := [] |}]
                 [Field None "id" [] [] []])
              [] 7 (initial Demo.store) eq_refl eq_refl Hnone eq_refl)
    as (s & Hrun & _).
  exists s. exact Hrun.
Defined.

(** Binding a subscription to the events of a view that exists. *)
Lemma bind_kappa_events host kappa s observer view event filter members w :
  sub_resolver s = KappaEvents view event filter ->
  api kappa !! to_key host (w_heap w) view = Some members ->
  bind_resolver host kappa s observer w =
    (Ok (RemoveListener view event (w_next_id w)),
     with_listeners
       (w_listeners w ++ [(to_key host (w_heap w) view, to_key host (w_heap w) event,
                           new_listener s filter observer w)])
       (S (w_next_id w)) w).
Proof.
  intros Hs Hview. unfold bind_resolver. rewrite Hs.
  unfold bind, fresh_id, events_on. simpl. rewrite Hview. reflexivity.
Qed.

Lemma remove_first_absent view event id ls :
  Forall (fun r => on_id (snd r) <> id) ls -> remove_first view event id ls = ls.
Proof.
  induction 1 as [|r ls Hr _ IH]; simpl; [reflexivity|].
  destruct (Nat.eqb_spec (on_id (snd r)) id) as [E | _]; [contradiction|].
  rewrite andb_false_r, IH. reflexivity.
Qed.

Lemma remove_last_registered view event id l ls :
  on_id l = id ->
  List.rev (remove_first view event id (List.rev (ls ++ [(view, event, l)]))) = ls.
Proof.
  intros <-. rewrite rev_app_distr. simpl.
  rewrite listens_refl, Nat.eqb_refl. simpl. apply rev_involutive.
Qed.

(** X20. On a view store that is ready, [subscribe] registers its listener at
    once, after the listeners that are there; the [unsubscribe] of its handle
    removes that listener and no other, and calling it again changes
    nothing. *)
Theorem subscribe_ready_unsubscribe host kappa s observer view event filter
    members w :
  w_ready w = true -> fresh_ids w ->
  sub_resolver s = KappaEvents view event filter ->
  api kappa !! to_key host (w_heap w) view = Some members ->
  exists handle w1 w2,
    subscribe host kappa s observer w = (Ok handle, w1)
    /\ w_listeners w1
       = w_listeners w ++ [(to_key host (w_heap w) view, to_key host (w_heap w) event,
                            new_listener s filter observer w)]
    /\ unsubscribe host kappa handle w1 = (Ok tt, w2)
    /\ w_listeners w2 = w_listeners w
    /\ w_emitted w2 = w_emitted w
    /\ unsubscribe host kappa handle w2 = (Ok tt, w2).
Proof.
  intros Hr Hfresh Hs Hview.
  unfold subscribe, ready. simpl. rewrite Hr.
  unfold run_callback, bind. simpl.
  rewrite (bind_kappa_events host kappa s observer view event filter members
             (with_cells (w_cells w ++ [None]) w) Hs Hview). simpl.
  eexists _, _, _. split; [reflexivity|]. simpl. split; [reflexivity|].
  assert (forall cs : option Unsubscribe,
             <[List.length (w_cells w) := cs]> (w_cells w ++ [None])
             !! List.length (w_cells w) = Some cs) as Hcell.
  { intros cs. apply list_lookup_insert_eq. rewrite length_app. simpl. lia. }
  unfold unsubscribe. simpl. rewrite Hcell.
  unfold events_removeListener. simpl. rewrite Hview.
  rewrite remove_last_registered by reflexivity.
  split; [reflexivity|]. simpl. split; [reflexivity|]. split; [reflexivity|].
  rewrite Hcell, Hview.
  rewrite remove_first_absent, rev_involutive; [reflexivity|].
  apply Forall_rev. eapply Forall_impl; [exact Hfresh|].
  intros r Hlt. simpl in Hlt. lia.
Qed.

Lemma subscribe_ready_unsubscribe_witness :
  exists handle w1 w2,
    subscribe Demo.runtime Demo.view_store (Demo.on_item VUndefined) 7
      (with_gate true [] (initial Demo.store)) = (Ok handle, w1)
    /\ List.length (w_listeners w1) = 1
    /\ unsubscribe Demo.runtime Demo.view_store handle w1 = (Ok tt, w2)
    /\ w_listeners w2 = [].
Proof.
  destruct (subscribe_ready_unsubscribe Demo.runtime Demo.view_store
              (Demo.on_item VUndefined) 7 (VStr "items") (VStr "added") VUndefined
              {[ "getItem" := VFun 0 ]} (with_gate true [] (initial Demo.store))
              eq_refl ltac:(constructor) eq_refl eq_refl)
    as (handle & w1 & w2 & Hsub & Hl1 & Hun & Hl2 & _).
  exists handle, w1, w2. split; [exact Hsub|]. split; [rewrite Hl1; reflexivity|].
  split; [exact Hun | exact Hl2].
Defined.

Lemma remove_earlier_registered view event l r ls :
  on_id l <> on_id (snd r) ->
  List.rev (remove_first view event (on_id l)
              (List.rev ((ls ++ [(view, event, l)]) ++ [r])))
  = ls ++ [r].
Proof.
  intros Hne. rewrite !rev_app_distr.
  change (List.rev [r] ++ List.rev [(view, event, l)] ++ List.rev ls)
    with (r :: (view, event, l) :: List.rev ls).
  unfold remove_first; fold remove_first.
  destruct (Nat.eqb_spec (on_id (snd r)) (on_id l)) as [E | _];
    [exfalso; apply Hne; symmetry; exact E|].
  rewrite andb_false_r, listens_refl.
  change (on_id (snd (view, event, l))) with (on_id l).
  rewrite Nat.eqb_refl. simpl. rewrite rev_involutive. reflexivity.
Qed.

(** X21. Subscriptions are independent: of two subscriptions made one after
    the other on a ready view store, cancelling the first removes its listener
    only; the listener of the second stays registered as it was, also when
    both listen to the same event of the same view. *)
Theorem subscriptions_independent host kappa s1 s2 o1 o2 view1 event1 filter1
    members1 view2 event2 filter2 members2 w :
  w_ready w = true ->
  sub_resolver s1 = KappaEvents view1 event1 filter1 ->
  sub_resolver s2 = KappaEvents view2 event2 filter2 ->
  api kappa !! to_key host (w_heap w) view1 = Some members1 ->
  api kappa !! to_key host (w_heap w) view2 = Some members2 ->
  exists handle1 w1 handle2 w2 w3,
    subscribe host kappa s1 o1 w = (Ok handle1, w1)
    /\ subscribe host kappa s2 o2 w1 = (Ok handle2, w2)
    /\ unsubscribe host kappa handle1 w2 = (Ok tt, w3)
    /\ w_listeners w3
       = w_listeners w ++ [(to_key host (w_heap w) view2, to_key host (w_heap w) event2,
                            new_listener s2 filter2 o2 w1)]
    /\ w_emitted w3 = w_emitted w.
Proof.
  intros Hr Hs1 Hs2 Hv1 Hv2.
  eexists _, _, _, _, _. split.
  { unfold subscribe, ready. simpl. rewrite Hr.
    unfold run_callback, bind. simpl.
    rewrite (bind_kappa_events host kappa s1 o1 view1 event1 filter1 members1
               (with_cells (w_cells w ++ [None]) w) Hs1 Hv1). reflexivity. }
  split.
  { unfold subscribe, ready. simpl. rewrite Hr.
    unfold run_callback, bind. simpl.
    match goal with
    | |- context [bind_resolver host kappa s2 o2 ?w0] =>
        rewrite (bind_kappa_events host kappa s2 o2 view2 event2 filter2 members2
                   w0 Hs2 Hv2)
    end. reflexivity. }
  unfold unsubscribe. simpl.
  rewrite length_insert, length_app. simpl.
  rewrite list_lookup_insert_ne by lia.
  rewrite lookup_app_l by (rewrite length_insert, length_app; simpl; lia).
  rewrite list_lookup_insert_eq by (rewrite length_app; simpl; lia).
  unfold events_removeListener. simpl. rewrite Hv1.
  split; [reflexivity|]. split; [|reflexivity].
  apply (remove_earlier_registered (to_key host (w_heap w) view1)
           (to_key host (w_heap w) event1)
           (new_listener s1 filter1 o1 (with_cells (w_cells w ++ [None]) w))).
  simpl. lia.
Qed.

Lemma subscriptions_independent_witness :
  exists handle1 w1 handle2 w2 w3,
    subscribe Demo.runtime Demo.view_store (Demo.on_item VUndefined) 7
      (with_gate true [] (initial Demo.store)) = (Ok handle1, w1)
    /\ subscribe Demo.runtime Demo.view_store (Demo.on_item (VFun 1)) 8 w1
       = (Ok handle2, w2)
    /\ unsubscribe Demo.runtime Demo.view_store handle1 w2 = (Ok tt, w3)
    /\ List.map (fun r => on_observer (snd r)) (w_listeners w3) = [8].
Proof.
  destruct (subscriptions_independent Demo.runtime Demo.view_store
              (Demo.on_item VUndefined) (Demo.on_item (VFun 1)) 7 8
              (VStr "items") (VStr "added") VUndefined {[ "getItem" := VFun 0 ]}
              (VStr "items") (VStr "added") (VFun 1) {[ "getItem" := VFun 0 ]}
              (with_gate true [] (initial Demo.store))
              eq_refl eq_refl eq_refl eq_refl eq_refl)
    as (handle1 & w1 & handle2 & w2 & w3 & H1 & H2 & H3 & Hl & _).
  exists handle1, w1, handle2, w2, w3.
  split; [exact H1|]. split; [exact H2|]. split; [exact H3|].
  rewrite Hl. reflexivity.
Defined.

(** X22. Nothing is bound before the view store is ready: on a store that is
    not ready, [subscribe] registers no listener and emits nothing, it only
    queues; when the gate fires, the queued subscriptions are bound in the
    order in which they were made. *)
Theorem subscribe_waits_for_ready host kappa s1 s2 o1 o2 view1 event1 filter1
    members1 view2 event2 filter2 members2 w :
  w_ready w = false -> w_waiting w = [] ->
  sub_resolver s1 = KappaEvents view1 event1 filter1 ->
  sub_resolver s2 = KappaEvents view2 event2 filter2 ->
  api kappa !! to_key host (w_heap w) view1 = Some members1 ->
  api kappa !! to_key host (w_heap w) view2 = Some members2 ->
  exists handle1 w1 handle2 w2 w3 l1 l2,
    subscribe host kappa s1 o1 w = (Ok handle1, w1)
    /\ subscribe host kappa s2 o2 w1 = (Ok handle2, w2)
    /\ w_listeners w2 = w_listeners w /\ w_emitted w2 = w_emitted w
    /\ w_ready w2 = false
    /\ ready_fires host kappa w2 = (Ok tt, w3)
    /\ w_ready w3 = true /\ w_waiting w3 = []
    /\ w_listeners w3
       = w_listeners w
         ++ [(to_key host (w_heap w) view1, to_key host (w_heap w) event1, l1);
             (to_key host (w_heap w) view2, to_key host (w_heap w) event2, l2)]
    /\ on_observer l1 = o1 /\ on_observer l2 = o2
    /\ on_name l1 = sub_name s1 /\ on_name l2 = sub_name s2.
Proof.
  intros Hr Hw Hs1 Hs2 Hv1 Hv2.
  eexists _, _, _, _, _, _, _. split.
  { unfold subscribe, ready. simpl. rewrite Hr. reflexivity. }
  split.
  { unfold subscribe, ready. simpl. rewrite ?Hr. reflexivity. }
  simpl. split; [reflexivity|]. split; [reflexivity|]. split; [reflexivity|].
  unfold ready_fires. simpl. rewrite Hw. simpl.
  unfold bind, run_callback, bind. simpl.
  match goal with
  | |- context [bind_resolver host kappa s1 o1 ?w0] =>
      rewrite (bind_kappa_events host kappa s1 o1 view1 event1 filter1 members1
                 w0 Hs1 Hv1)
  end. simpl.
  match goal with
  | |- context [bind_resolver host kappa s2 o2 ?w0] =>
      rewrite (bind_kappa_events host kappa s2 o2 view2 event2 filter2 members2
                 w0 Hs2 Hv2)
  end. simpl.
  split; [reflexivity|]. simpl. split; [reflexivity|]. split; [reflexivity|].
  rewrite <- app_assoc. simpl. repeat split; reflexivity.
Qed.

Lemma subscribe_waits_for_ready_witness :
  exists handle1 w1 handle2 w2 w3,
    subscribe Demo.runtime Demo.view_store (Demo.on_item VUndefined) 7
      (initial Demo.store) = (Ok handle1, w1)
    /\ subscribe Demo.runtime Demo.view_store (Demo.on_item (VFun 1)) 8 w1
       = (Ok handle2, w2)
    /\ w_listeners w2 = []
    /\ ready_fires Demo.runtime Demo.view_store w2 = (Ok tt, w3)
    /\ List.map (fun r => on_observer (snd r)) (w_listeners w3) = [7; 8].
Proof.
  destruct (subscribe_waits_for_ready Demo.runtime Demo.view_store
              (Demo.on_item VUndefined) (Demo.on_item (VFun 1)) 7 8
              (VStr "items") (VStr "added") VUndefined {[ "getItem" := VFun 0 ]}
              (VStr "items") (VStr "added") (VFun 1) {[ "getItem" := VFun 0 ]}
              (initial Demo.store)
              eq_refl eq_refl eq_refl eq_refl eq_refl eq_refl)
    as (handle1 & w1 & handle2 & w2 & w3 & l1 & l2 & H1 & H2 & Hl2 & _ & _ & H3
        & _ & _ & Hl3 & Ho1 & Ho2 & _).
  exists handle1, w1, handle2, w2, w3.
  split; [exact H1|]. split; [exact H2|]. split; [exact Hl2|]. split; [exact H3|].
  rewrite Hl3. simpl. rewrite Ho1, Ho2. reflexivity.
Defined.

(** X23. A failure of the filter is a failure of the event: when the filter
    of the listener throws, and in particular when it is a truthy value that
    is not a function, the emit throws with that error and the observer
    receives nothing. *)
Theorem filter_failure rev host view event l data w :
  w_listeners w = [(view, event, l)] ->
  truthy (on_filter l) = true ->
  (forall msg,
      fst (apply_filter host (on_filter l) data (on_args l) (w_heap w)) = Throw msg ->
      fst (emit rev host view event data w) = Throw msg
      /\ w_emitted (snd (emit rev host view event data w)) = w_emitted w)
  /\ ((forall f, on_filter l <> VFun f) ->
      exists msg,
        fst (emit rev host view event data w) = Throw msg
        /\ w_emitted (snd (emit rev host view event data w)) = w_emitted w).
Proof.
  intros Hl Ht.
  assert (forall msg,
             fst (apply_filter host (on_filter l) data (on_args l) (w_heap w))
             = Throw msg ->
             fst (emit rev host view event data w) = Throw msg
             /\ w_emitted (snd (emit rev host view event data w)) = w_emitted w) as HA.
  { intros msg Hf. rewrite (emit_bound rev host view event l data w Hl).
    unfold onEvent. rewrite Ht. unfold bind, on_heap.
    destruct (apply_filter host (on_filter l) data (on_args l) (w_heap w)) as [c h1].
    simpl in Hf. subst c. split; reflexivity. }
  split; [exact HA|].
  intros Hnf. exists "TypeError: filter is not a function". apply HA.
  destruct (on_filter l); try reflexivity. exfalso. exact (Hnf _ eq_refl).
Qed.

Lemma filter_failure_witness :
  exists msg,
    fst (emit LinkJs Demo.runtime "items" "added" (VRef 0)
           (Demo.bound_world (VBool true))) = Throw msg
    /\ w_emitted (snd (emit LinkJs Demo.runtime "items" "added" (VRef 0)
                         (Demo.bound_world (VBool true)))) = [].
Proof.
  apply (proj2 (filter_failure LinkJs Demo.runtime "items" "added"
                  (Demo.bound_listener (VBool true)) (VRef 0)
                  (Demo.bound_world (VBool true)) eq_refl eq_refl)).
  intros f. discriminate.
Defined.

Lemma payload_wrapped h name d n :
  h !! n = Some (Obj {[ name := d ]}) ->
  h !! S n = Some (Obj {[ "data" := VRef n ]}) ->
  payload h (VRef (S n)) name = d.
Proof.
  intros Hinner Houter. unfold payload. simpl. rewrite Houter.
  rewrite lookup_singleton_eq. simpl. rewrite Hinner, lookup_singleton_eq.
  reflexivity.
Qed.

Lemma lacks_typename_typed h data :
  truthy (get h data "__typename") = true -> lacks_typename h data = false.
Proof.
  intros Ht. unfold lacks_typename. rewrite Ht, andb_false_r. reflexivity.
Qed.

Lemma part000_setTypename_object fieldName h l m :
  h !! l = Some (Obj m) ->
  truthy (from_option_value (m !! "__typename")) = false ->
  Part000.setTypename (VRef l) fieldName h
  = (Ok (VRef l),
     <[l := Obj (<[ "__typename" := VStr (capitalizeFirstLetter fieldName) ]> m)]> h).
Proof.
  intros Hl Ht. unfold Part000.setTypename.
  rewrite (object_lacks_typename h l m Hl), Ht. simpl. rewrite Hl.
  unfold bind. simpl. rewrite Hl. reflexivity.
Qed.

(** [next] on a payload that carries a discriminator, in both revisions. *)
Lemma next_typed rev name observer data w :
  truthy (get (w_heap w) data "__typename") = true ->
  next rev name observer data w =
    (Ok tt,
     with_emitted (w_emitted w ++ [(observer, VRef (S (List.length (w_heap w))))])
       (with_heap ((w_heap w ++ [Obj {[ name := data ]}])
                   ++ [Obj {[ "data" := VRef (List.length (w_heap w)) ]}]) w)).
Proof.
  intros Ht. pose proof (lacks_typename_typed _ _ Ht) as E.
  unfold next, bind, on_heap.
  destruct rev; unfold setTypename, total, Link.setTypename, Part000.setTypename;
    rewrite E; simpl; rewrite length_app; simpl; rewrite Nat.add_1_r; reflexivity.
Qed.

(** [next] on a record without a discriminator, in the second revision. *)
Lemma next_second_object name observer l m w :
  w_heap w !! l = Some (Obj m) ->
  truthy (from_option_value (m !! "__typename")) = false ->
  next SecondRevision name observer (VRef l) w =
    (Ok tt,
     with_emitted (w_emitted w ++ [(observer, VRef (S (List.length (w_heap w))))])
       (with_heap
          ((<[l := Obj (<[ "__typename" := VStr (capitalizeFirstLetter name) ]> m)]>
              (w_heap w)
            ++ [Obj {[ name := VRef l ]}])
           ++ [Obj {[ "data" := VRef (List.length (w_heap w)) ]}]) w)).
Proof.
  intros Hl Ht. unfold next, bind, on_heap, setTypename.
  rewrite (part000_setTypename_object name (w_heap w) l m Hl Ht). simpl.
  rewrite length_app, length_insert. simpl. rewrite Nat.add_1_r. reflexivity.
Qed.

(** [next] on a record without a discriminator, in src/link.js. *)
Lemma next_link_object name observer l m w :
  w_heap w !! l = Some (Obj m) ->
  truthy (from_option_value (m !! "__typename")) = false ->
  next LinkJs name observer (VRef l) w =
    (Ok tt,
     with_emitted
       (w_emitted w ++ [(observer, VRef (S (S (List.length (w_heap w)))))])
       (with_heap
          (((w_heap w
             ++ [Obj (<[ "__typename" := VStr (capitalizeFirstLetter name) ]> m)])
            ++ [Obj {[ name := VRef (List.length (w_heap w)) ]}])
           ++ [Obj {[ "data" := VRef (S (List.length (w_heap w))) ]}]) w)).
Proof.
  intros Hl Ht. unfold next, bind, on_heap, setTypename, total.
  rewrite (link_setTypename_object name (w_heap w) l m Hl Ht). simpl.
  rewrite !length_app. simpl. rewrite !Nat.add_1_r. reflexivity.
Qed.

Lemma capitalizeFirstLetter_truthy name :
  name <> EmptyString -> truthy (VStr (capitalizeFirstLetter name)) = true.
Proof. destruct name; [congruence | reflexivity]. Qed.

Lemma lookup_snoc_eq (h : heap) o i :
  i = List.length h -> (h ++ [o]) !! i = Some o.
Proof. intros ->. apply lookup_alloc. Qed.

Lemma lookup_snoc_lt (h : heap) o i :
  i < List.length h -> (h ++ [o]) !! i = h !! i.
Proof. intros Hi. apply lookup_app_l. exact Hi. Qed.

Ltac store_size := rewrite ?length_app, ?length_insert; simpl; lia.

Ltac store_lookup :=
  repeat first
    [ rewrite lookup_snoc_eq by store_size
    | rewrite lookup_snoc_lt by store_size
    | rewrite list_lookup_insert_eq by store_size ].

(** X24. Two subscriptions that listen to the same event receive the same
    payload object. In the second revision the first listener writes its
    discriminator into that object, so the second listener finds it typed and
    emits it under its own field name with the discriminator of the first
    field, and the object of the view store itself is changed. In src/link.js
    each listener emits a copy of its own, typed by its own field name, and
    the payload stays as it was. *)
Theorem listeners_share_payload host view event l1 l2 l m w :
  w_listeners w = [(view, event, l1); (view, event, l2)] ->
  truthy (on_filter l1) = false -> truthy (on_filter l2) = false ->
  w_heap w !! l = Some (Obj m) ->
  truthy (from_option_value (m !! "__typename")) = false ->
  on_name l1 <> EmptyString ->
  (exists x1 x2 w',
      emit SecondRevision host view event (VRef l) w = (Ok tt, w')
      /\ w_emitted w' = w_emitted w ++ [(on_observer l1, x1); (on_observer l2, x2)]
      /\ payload (w_heap w') x1 (on_name l1) = VRef l
      /\ payload (w_heap w') x2 (on_name l2) = VRef l
      /\ get (w_heap w') (VRef l) "__typename"
         = VStr (capitalizeFirstLetter (on_name l1)))
  /\ (exists x1 x2 p1 p2 w',
         emit LinkJs host view event (VRef l) w = (Ok tt, w')
         /\ w_emitted w' = w_emitted w ++ [(on_observer l1, x1); (on_observer l2, x2)]
         /\ payload (w_heap w') x1 (on_name l1) = VRef p1
         /\ payload (w_heap w') x2 (on_name l2) = VRef p2
         /\ get (w_heap w') (VRef p1) "__typename"
            = VStr (capitalizeFirstLetter (on_name l1))
         /\ get (w_heap w') (VRef p2) "__typename"
            = VStr (capitalizeFirstLetter (on_name l2))
         /\ w_heap w' !! l = Some (Obj m)).
Proof.
  intros Hls Hf1 Hf2 Hl Ht Hname.
  assert (l < List.length (w_heap w)) as Hlt by (eapply lookup_lt_Some; exact Hl).
  pose proof (capitalizeFirstLetter_truthy _ Hname) as Hc.
  split.
  - unfold emit. rewrite Hls. simpl. rewrite !listens_refl. simpl.
    unfold bind at 1. unfold onEvent at 1. rewrite Hf1.
    rewrite (next_second_object (on_name l1) (on_observer l1) l m w Hl Ht).
    unfold bind at 1. unfold onEvent at 1. rewrite Hf2.
    rewrite next_typed
      by (simpl; store_lookup; rewrite lookup_insert_eq; exact Hc).
    eexists _, _, _. split; [reflexivity|]. simpl.
    rewrite <- app_assoc. split; [reflexivity|].
    split; [|split].
    + apply payload_wrapped; store_lookup; reflexivity.
    + apply payload_wrapped; store_lookup; reflexivity.
    + simpl. store_lookup. rewrite lookup_insert_eq. reflexivity.
  - unfold emit. rewrite Hls. simpl. rewrite !listens_refl. simpl.
    unfold bind at 1. unfold onEvent at 1. rewrite Hf1.
    rewrite (next_link_object (on_name l1) (on_observer l1) l m w Hl Ht).
    unfold bind at 1. unfold onEvent at 1. rewrite Hf2.
    rewrite (next_link_object (on_name l2) (on_observer l2) l m)
      by (simpl; store_lookup; assumption).
    eexists _, _, _, _, _. split; [reflexivity|]. simpl.
    rewrite <- app_assoc. split; [reflexivity|].
    split; [|split; [|split; [|split]]].
    + apply payload_wrapped; store_lookup; reflexivity.
    + apply payload_wrapped; store_lookup; reflexivity.
    + simpl. store_lookup. rewrite lookup_insert_eq. reflexivity.
    + simpl. store_lookup. rewrite lookup_insert_eq. reflexivity.
    + store_lookup. exact Hl.
Qed.

Lemma listeners_share_payload_witness :
  exists x1 x2 w',
    emit SecondRevision Demo.runtime "items" "added" (VRef 0) Samples.shared_world
    = (Ok tt, w')
    /\ w_emitted w' = [(7, x1); (8, x2)]
    /\ payload (w_heap w') x2 "onOther" = VRef 0
    /\ get (w_heap w') (VRef 0) "__typename" = VStr "OnItem".
Proof.
  destruct (listeners_share_payload Demo.runtime "items" "added"
              (Demo.bound_listener VUndefined)
              {| on_id := 1; on_filter := VUndefined; on_args := VUndefined;
                 on_name := "onOther"; on_observer := 8 |}
              0 {[ "id" := VStr "x1" ]} Samples.shared_world
              eq_refl eq_refl eq_refl eq_refl eq_refl ltac:(discriminate))
    as [(x1 & x2 & w' & Hemit & He & _ & Hp2 & HT) _].
  exists x1, x2, w'. split; [exact Hemit|]. split; [exact He|].
  split; [exact Hp2 | exact HT].
Defined.

(** * The subscription that [runSubscription] builds *)

(** The filter that [runSubscription] reads is the configured one. *)
Lemma filter_read (resolvers : ResolverMap) type name h :
  (let entry := from_option_value (default ∅ (resolvers !! type) !! name) in
   if truthy entry then get h entry "filter" else VUndefined)
  = configured_filter resolvers type name h.
Proof.
  unfold configured_filter. cbv zeta.
  destruct (resolvers !! type) as [entries|]; simpl.
  - destruct (entries !! name) as [entry|]; simpl; [|reflexivity].
    destruct (truthy entry) eqn:Ht; [reflexivity|].
    destruct entry; try discriminate; reflexivity.
  - rewrite lookup_empty. reflexivity.
Qed.

(** What [runSubscription] returns for a document whose first annotated field
    names a view and an event. *)
Lemma runSubscription_bound host (R : Type) type (resolvers : ResolverMap) op
    (forward : option (Operation -> R)) h field others view event :
  document_annotated_fields (query op) = field :: others ->
  field_binding host h field = Some (view, event) ->
  exists viewv eventv,
    runSubscription R type resolvers op forward h
    = (Ok (RunSubscription
             {| sub_name := field_name field;
                sub_resolver :=
                  KappaEvents viewv eventv
                    (configured_filter resolvers type (field_name field) h);
                sub_operation := op |}), [])
    /\ to_key host h viewv = view /\ to_key host h eventv = event.
Proof.
  intros Hdoc Hb.
  assert (visit (query op) = Some field) as Hv by (rewrite visit_head, Hdoc; reflexivity).
  unfold field_binding in Hb. unfold runSubscription. rewrite Hv.
  destruct (directive_kappa (getDirectiveInfoFromField field ∅)) as [dk|];
    [|discriminate].
  injection Hb as Hview Hevent.
  exists (from_option_value (dk !! "view")), (from_option_value (dk !! "event")).
  split; [|split; assumption].
  pose proof (filter_read resolvers type (field_name field) h) as Hf.
  cbv zeta in Hf. cbv zeta. rewrite Hf. reflexivity.
Qed.

(** A [subscribe] call and the firing of the gate, on a view store that
    nobody else is waiting for: the listener is registered after the ones that
    are there. *)
Lemma subscribe_then_ready host kappa s observer viewv eventv filter members w :
  w_waiting w = [] ->
  sub_resolver s = KappaEvents viewv eventv filter ->
  api kappa !! to_key host (w_heap w) viewv = Some members ->
  exists w',
    (let* _ := subscribe host kappa s observer in ready_fires host kappa) w
    = (Ok tt, w')
    /\ w_listeners w'
       = w_listeners w ++ [(to_key host (w_heap w) viewv, to_key host (w_heap w) eventv,
                            new_listener s filter observer w)]
    /\ w_emitted w' = w_emitted w
    /\ w_heap w' = w_heap w.
Proof.
  intros Hw Hs Hview. unfold bind at 1. unfold subscribe, ready. simpl.
  destruct (w_ready w) eqn:Hr.
  - unfold run_callback, bind. simpl.
    rewrite (bind_kappa_events host kappa s observer viewv eventv filter members
               (with_cells (w_cells w ++ [None]) w) Hs Hview). simpl.
    unfold ready_fires. simpl. rewrite Hw. simpl.
    eexists. split; [reflexivity|]. simpl. auto.
  - simpl. unfold ready_fires. simpl. rewrite Hw. simpl.
    unfold bind, run_callback, bind. simpl.
    match goal with
    | |- context [bind_resolver host kappa s observer ?w0] =>
        rewrite (bind_kappa_events host kappa s observer viewv eventv filter members
                   w0 Hs Hview)
    end. simpl.
    eexists. split; [reflexivity|]. simpl. auto.
Qed.




(** ** Events in a world with several listeners *)

(** A call of a listener in src/link.js leaves the registrations alone, and
    adds nothing to what the observers received or one emission to its own
    observer. *)
Lemma onEvent_effect host l data w :
  w_listeners (snd (onEvent LinkJs host l data w)) = w_listeners w
  /\ (w_emitted (snd (onEvent LinkJs host l data w)) = w_emitted w
      \/ exists x,
           fst (onEvent LinkJs host l data w) = Ok tt
           /\ w_emitted (snd (onEvent LinkJs host l data w))
              = w_emitted w ++ [(on_observer l, x)]).
Proof.
  assert (forall w0,
            w_listeners (snd (next LinkJs (on_name l) (on_observer l) data w0))
            = w_listeners w0
            /\ exists x,
                 fst (next LinkJs (on_name l) (on_observer l) data w0) = Ok tt
                 /\ w_emitted (snd (next LinkJs (on_name l) (on_observer l) data w0))
                    = w_emitted w0 ++ [(on_observer l, x)]) as Hnext.
  { intros w0.
    destruct (next_emits (on_name l) (on_observer l) data w0)
      as (x & inner & w' & -> & He & _ & _ & Hl). simpl. eauto. }
  unfold onEvent. destruct (truthy (on_filter l)).
  - unfold bind, on_heap.
    destruct (apply_filter host (on_filter l) data (on_args l) (w_heap w))
      as [[keep|msg] h1]; simpl; [|auto].
    destruct (truthy keep); simpl; [|auto].
    destruct (Hnext (with_heap h1 w)) as (Hl & x & Hr & He). eauto.
  - destruct (Hnext w) as (Hl & x & Hr & He). eauto.
Qed.

Lemma onEvent_listeners host l data w :
  w_listeners (snd (onEvent LinkJs host l data w)) = w_listeners w.
Proof. apply onEvent_effect. Qed.

(** A listener of another observer adds nothing to what this one received. *)
Lemma onEvent_other_observer host l data observer w :
  on_observer l <> observer ->
  emissions_to observer (snd (onEvent LinkJs host l data w))
  = emissions_to observer w.
Proof.
  intros Hne. unfold emissions_to.
  destruct (onEvent_effect host l data w) as (_ & [-> | (x & _ & ->)]);
    [reflexivity|].
  rewrite List.filter_app. simpl.
  destruct (Nat.eqb_spec (on_observer l) observer); [contradiction|].
  apply app_nil_r.
Qed.

(** A listener whose filter returns does not fail. *)
Lemma onEvent_completes host l data w :
  filter_completes host (on_filter l) ->
  exists w', onEvent LinkJs host l data w = (Ok tt, w').
Proof.
  assert (forall w0, exists w',
            next LinkJs (on_name l) (on_observer l) data w0 = (Ok tt, w')) as Hnext.
  { intros w0.
    destruct (next_emits (on_name l) (on_observer l) data w0)
      as (x & inner & w' & Hn & _). eauto. }
  unfold onEvent. intros [Hno | (g & Hg & Hcall)].
  - rewrite Hno. apply Hnext.
  - rewrite Hg. simpl. unfold bind, on_heap.
    destruct (Hcall data (on_args l) (w_heap w)) as (v & h' & ->).
    destruct (truthy v); [apply Hnext | eexists; reflexivity].
Qed.

Lemma deliver_app rev host ls1 ls2 data w :
  deliver rev host (ls1 ++ ls2) data w
  = (let* _ := deliver rev host ls1 data in deliver rev host ls2 data) w.
Proof.
  revert w. induction ls1 as [|r ls1 IH]; intros w; simpl.
  - unfold bind, ret. reflexivity.
  - unfold bind in *.
    destruct (onEvent rev host (snd r) data w) as [[[]|msg] w1]; [|reflexivity].
    apply IH.
Qed.

Lemma deliver_listeners host ls data w :
  w_listeners (snd (deliver LinkJs host ls data w)) = w_listeners w.
Proof.
  revert w. induction ls as [|r ls IH]; intros w; simpl; [reflexivity|].
  unfold bind. pose proof (onEvent_listeners host (snd r) data w) as H.
  destruct (onEvent LinkJs host (snd r) data w) as [[[]|msg] w1]; simpl in *;
    [rewrite IH|]; exact H.
Qed.

Lemma deliver_other_observers host ls data observer w :
  Forall (fun r => on_observer (snd r) <> observer) ls ->
  emissions_to observer (snd (deliver LinkJs host ls data w))
  = emissions_to observer w.
Proof.
  intros Hls. revert w. induction Hls as [|r ls Hr Hls IH]; intros w; simpl;
    [reflexivity|].
  unfold bind. pose proof (onEvent_other_observer host (snd r) data observer w Hr) as H.
  destruct (onEvent LinkJs host (snd r) data w) as [[[]|msg] w1]; simpl in *;
    [rewrite IH|]; exact H.
Qed.

Lemma deliver_completes host ls data w :
  Forall (fun r => filter_completes host (on_filter (snd r))) ls ->
  exists w', deliver LinkJs host ls data w = (Ok tt, w').
Proof.
  intros Hls. revert w. induction Hls as [|r ls Hr Hls IH]; intros w; simpl.
  - eexists. reflexivity.
  - unfold bind. destruct (onEvent_completes host (snd r) data w Hr) as (w1 & ->).
    apply IH.
Qed.

Lemma filter_other_observers view event observer
    (ls : list (string * string * Listener)) :
  Forall (fun r => on_observer (snd r) <> observer) ls ->
  Forall (fun r => on_observer (snd r) <> observer)
         (List.filter (listens view event) ls).
Proof.
  intros Hls. induction Hls as [|r ls Hr Hls IH]; simpl; [constructor|].
  destruct (listens view event r); [constructor|]; assumption.
Qed.

(** With the listener registered last, an event calls the earlier listeners
    for it and then this one. *)
Lemma emit_last rev host view event l ls data w :
  w_listeners w = ls ++ [(view, event, l)] ->
  emit rev host view event data w
  = (let* _ := deliver rev host (List.filter (listens view event) ls) data in
     onEvent rev host l data) w.
Proof.
  intros Hl. unfold emit. rewrite Hl, List.filter_app. simpl.
  rewrite listens_refl, deliver_app. unfold bind.
  destruct (deliver rev host (List.filter (listens view event) ls) data w)
    as [[[]|msg] w1]; [|reflexivity].
  apply deliver_one.
Qed.

(** Events leave the registrations alone. *)
Lemma emit_listeners host view event data w :
  w_listeners (snd (emit LinkJs host view event data w)) = w_listeners w.
Proof. unfold emit. apply deliver_listeners. Qed.

(** Events that a rejecting listener and listeners of other observers hear add
    nothing to what the observer received. *)
Lemma emit_all_rejected host view event l f ls observer payloads w :
  w_listeners w = ls ++ [(view, event, l)] ->
  Forall (fun r => on_observer (snd r) <> observer) ls ->
  on_filter l = VFun f -> rejects_all host f ->
  emissions_to observer (snd (emit_all LinkJs host view event payloads w))
  = emissions_to observer w.
Proof.
  intros Hl Hls Hf Hrej. revert w Hl.
  induction payloads as [|data rest IH]; intros w Hl; simpl; [reflexivity|].
  unfold bind at 1.
  pose proof (emit_listeners host view event data w) as Hkeep.
  assert (emissions_to observer (snd (emit LinkJs host view event data w))
          = emissions_to observer w) as Hsame.
  { rewrite (emit_last LinkJs host view event l ls data w Hl). unfold bind.
    pose proof (deliver_other_observers host
                  (List.filter (listens view event) ls) data observer w
                  (filter_other_observers view event observer ls Hls)) as Hd.
    destruct (deliver LinkJs host (List.filter (listens view event) ls) data w)
      as [[[]|msg] w1]; simpl in *; [|exact Hd].
    destruct (onEvent_rejected LinkJs host l f data w1 Hf Hrej) as (w2 & -> & He & _).
    simpl. unfold emissions_to in *. rewrite He. exact Hd. }
  destruct (emit LinkJs host view event data w) as [[[]|msg] w1]; simpl in *;
    [|exact Hsame].
  rewrite IH by congruence. exact Hsame.
Qed.

(** Events that an accepting listener hears after listeners of other
    observers, all of which return: one emission to the observer for each. *)
Lemma emit_all_accepted host view event l ls payloads w :
  w_listeners w = ls ++ [(view, event, l)] ->
  Forall (fun r => on_observer (snd r) <> on_observer l) ls ->
  Forall (fun r => filter_completes host (on_filter (snd r)))
         (List.filter (listens view event) ls) ->
  (forall data h, accepted host l data h) ->
  exists w',
    emit_all LinkJs host view event payloads w = (Ok tt, w')
    /\ List.length (emissions_to (on_observer l) w')
       = List.length (emissions_to (on_observer l) w) + List.length payloads.
Proof.
  intros Hl Hls Hothers Hacc. revert w Hl.
  induction payloads as [|data rest IH]; intros w Hl; simpl.
  - exists w. split; [reflexivity | lia].
  - unfold bind at 1.
    pose proof (emit_listeners host view event data w) as Hkeep.
    rewrite (emit_last LinkJs host view event l ls data w Hl) in *.
    unfold bind at 1 in Hkeep. unfold bind at 1.
    pose proof (deliver_other_observers host
                  (List.filter (listens view event) ls) data (on_observer l) w
                  (filter_other_observers view event (on_observer l) ls Hls)) as Hd.
    destruct (deliver_completes host (List.filter (listens view event) ls) data w
                Hothers) as (w1 & Hdel).
    rewrite Hdel in *. simpl in Hd.
    rewrite (onEvent_accepted host l data w1 (Hacc data (w_heap w1))) in *.
    destruct (next_emits (on_name l) (on_observer l) data
                (with_heap (after_filter host l data (w_heap w1)) w1))
      as (x & inner & w2 & Hn & He & _ & _ & _).
    rewrite Hn in *. simpl in Hkeep.
    destruct (IH w2) as (w' & Hrun & Hlen); [congruence|].
    exists w'. split; [exact Hrun|]. rewrite Hlen.
    unfold emissions_to in *. rewrite He. simpl. rewrite List.filter_app, length_app.
    simpl. rewrite Nat.eqb_refl. simpl. rewrite <- Hd. lia.
Qed.

(** C8. The subscription that [runSubscription] of src/link.js builds for a
    field bound to [event] of [view], once an observer has subscribed and the
    view store is ready, in a world where other listeners may be registered.
    Its listener is registered after those, with the [filter] configured for
    the field under [resolvers[type]], and an event calls it after the
    earlier listeners for the event. If that filter is a function that rejects
    every datum, the listener emits nothing, and no number of events adds to
    what the observer received. If no filter is configured, or the filter
    accepts the datum, an event that the earlier listeners have handled
    yields exactly one emission to the observer, the fresh
    [{ data: { [fieldName]: nextData } }], where [nextData] is the payload
    normalized under the field name; and when every datum is accepted and the
    other listeners return, the observer receives as many emissions as events
    fire. *)
Theorem subscription_filter host kappa (R : Type) type resolvers op
    (forward : option (Operation -> R)) field others observer w view event
    members :
  document_annotated_fields (query op) = field :: others ->
  w_waiting w = [] ->
  field_binding host (w_heap w) field = Some (view, event) ->
  api kappa !! view = Some members ->
  exists s warnings w' l,
    runSubscription R type resolvers op forward (w_heap w)
      = (Ok (RunSubscription s), warnings)
    /\ (let* _ := subscribe host kappa s observer in ready_fires host kappa) w
       = (Ok tt, w')
    /\ w_listeners w' = w_listeners w ++ [(view, event, l)]
    /\ on_filter l = configured_filter resolvers type (field_name field) (w_heap w)
    /\ on_name l = field_name field
    /\ on_observer l = observer
    /\ on_args l = variables op
    /\ w_emitted w' = w_emitted w
    /\ (forall data w1,
          w_listeners w1 = w_listeners w' ->
          emit LinkJs host view event data w1
          = (let* _ := deliver LinkJs host
                         (List.filter (listens view event) (w_listeners w)) data in
             onEvent LinkJs host l data) w1)
    /\ (forall f,
          configured_filter resolvers type (field_name field) (w_heap w) = VFun f ->
          rejects_all host f ->
          (forall data w1,
              exists w2, onEvent LinkJs host l data w1 = (Ok tt, w2)
                         /\ w_emitted w2 = w_emitted w1)
          /\ (Forall (fun r => on_observer (snd r) <> observer) (w_listeners w) ->
              forall payloads,
                emissions_to observer
                  (snd (emit_all LinkJs host view event payloads w'))
                = emissions_to observer w))
    /\ (forall data w0 w1,
          w_listeners w0 = w_listeners w' ->
          deliver LinkJs host
            (List.filter (listens view event) (w_listeners w)) data w0
            = (Ok tt, w1) ->
          accepted host l data (w_heap w1) ->
          exists x inner w2,
            emit LinkJs host view event data w0 = (Ok tt, w2)
            /\ w_emitted w2 = w_emitted w1 ++ [(observer, x)]
            /\ own_props (w_heap w2) x = {[ "data" := inner ]}
            /\ own_props (w_heap w2) inner
               = {[ field_name field :=
                      fst (Link.setTypename data (field_name field)
                             (after_filter host l data (w_heap w1))) ]}
            /\ w_listeners w2 = w_listeners w0)
    /\ (Forall (fun r => on_observer (snd r) <> observer) (w_listeners w) ->
        Forall (fun r => filter_completes host (on_filter (snd r)))
               (List.filter (listens view event) (w_listeners w)) ->
        (forall data h, accepted host l data h) ->
        forall payloads,
          exists w2,
            emit_all LinkJs host view event payloads w' = (Ok tt, w2)
            /\ List.length (emissions_to observer w2)
               = List.length (emissions_to observer w) + List.length payloads).
Proof.
  intros Hdoc Hw Hb Hview.
  destruct (runSubscription_bound host R type resolvers op forward (w_heap w)
              field others view event Hdoc Hb)
    as (viewv & eventv & Hrun & Hkv & Hke).
  rewrite <- Hkv in Hview.
  set (filter := configured_filter resolvers type (field_name field) (w_heap w)).
  fold filter in Hrun.
  set (s := {| sub_name := field_name field;
               sub_resolver := KappaEvents viewv eventv filter;
               sub_operation := op |}).
  destruct (subscribe_then_ready host kappa s observer viewv eventv filter
              members w Hw eq_refl Hview) as (w' & Hsub & Hls & He & _).
  rewrite Hkv, Hke in Hls.
  set (l := new_listener s filter observer w) in *.
  exists s, [], w', l.
  split; [exact Hrun|]. split; [exact Hsub|]. split; [exact Hls|].
  split; [reflexivity|]. split; [reflexivity|]. split; [reflexivity|].
  split; [reflexivity|]. split; [exact He|].
  split; [|split; [|split]].
  - intros data w1 Hl1. apply emit_last. congruence.
  - intros f Hf Hrej. split.
    + intros data w1.
      destruct (onEvent_rejected LinkJs host l f data w1 Hf Hrej)
        as (w2 & Hon & Hsame & _). eauto.
    + intros Hothers payloads.
      rewrite (emit_all_rejected host view event l f (w_listeners w) observer
                 payloads w' Hls Hothers Hf Hrej).
      unfold emissions_to. rewrite He. reflexivity.
  - intros data w0 w1 Hl0 Hearlier Hacc.
    rewrite (emit_last LinkJs host view event l (w_listeners w) data w0)
      by congruence.
    unfold bind. rewrite Hearlier.
    rewrite (onEvent_accepted host l data w1 Hacc).
    destruct (next_emits (field_name field) observer data
                (with_heap (after_filter host l data (w_heap w1)) w1))
      as (x & inner & w2 & Hnext & Hone & Hx & Hinner & Hl2).
    exists x, inner, w2. split; [exact Hnext|]. split; [exact Hone|].
    split; [exact Hx|]. split; [exact Hinner|].
    pose proof (deliver_listeners host
                  (List.filter (listens view event) (w_listeners w)) data w0) as Hd.
    rewrite Hearlier in Hd. simpl in *. congruence.
  - intros Hothers Hcomplete Hacc payloads.
    destruct (emit_all_accepted host view event l (w_listeners w) payloads w'
                Hls Hothers Hcomplete Hacc) as (w2 & Hrun2 & Hlen).
    exists w2. split; [exact Hrun2|].
    change (on_observer l) with observer in Hlen. rewrite Hlen.
    unfold emissions_to. rewrite He. reflexivity.
Qed.

Lemma subscription_filter_witness :
  (exists s warnings w' l w2,
      runSubscription nat "Subscription" Samples.filter_resolvers
        (Demo.operation Demo.subscription_document) None (Samples.filter_store 1)
        = (Ok (RunSubscription s), warnings)
      /\ (let* _ := subscribe Demo.runtime Demo.view_store s 7 in
          ready_fires Demo.runtime Demo.view_store) (Samples.busy_world 1)
         = (Ok tt, w')
      /\ w_listeners w'
         = w_listeners (Samples.busy_world 1) ++ [("items", "added", l)]
      /\ on_filter l = VFun 1
      /\ emit_all LinkJs Demo.runtime "items" "added" [VRef 0; VRef 1] w'
         = (Ok tt, w2)
      /\ List.length (emissions_to 7 w2) = 2)
  /\ (exists s warnings w' l,
        runSubscription nat "Subscription" Samples.filter_resolvers
          (Demo.operation Demo.subscription_document) None (Samples.filter_store 2)
          = (Ok (RunSubscription s), warnings)
        /\ (let* _ := subscribe Demo.runtime Demo.view_store s 7 in
            ready_fires Demo.runtime Demo.view_store) (Samples.busy_world 2)
           = (Ok tt, w')
        /\ on_filter l = VFun 2
        /\ emissions_to 7
             (snd (emit_all LinkJs Demo.runtime "items" "added" [VRef 0; VRef 1] w'))
           = []).
Proof.
  split.
  - destruct (subscription_filter Demo.runtime Demo.view_store nat "Subscription"
                Samples.filter_resolvers
                (Demo.operation Demo.subscription_document) None
                (Field None "onItem" [] [Demo.kappa_directive "items" "event" "added"]
                   [Field None "id" [] [] []])
                [Field None "onGone" [] [Demo.kappa_directive "items" "event" "removed"]
                   [Field None "id" [] [] []]]
                7 (Samples.busy_world 1) "items" "added" {[ "getItem" := VFun 0 ]}
                eq_refl eq_refl eq_refl eq_refl)
      as (s & warnings & w' & l & Hrun & Hsub & Hls & Hfilter & _ & _ & _ & _ & _
          & _ & _ & Hcount).
    destruct (Hcount ltac:(repeat constructor; discriminate)
                     ltac:(repeat constructor; left; reflexivity)
                     ltac:(intros data h; right; rewrite Hfilter;
                           exists (VBool true); split; reflexivity)
                     [VRef 0; VRef 1]) as (w2 & Hemit & Hlen).
    exists s, warnings, w', l, w2. split; [exact Hrun|]. split; [exact Hsub|].
    split; [exact Hls|]. split; [exact Hfilter|]. split; [exact Hemit|].
    exact Hlen.
  - destruct (subscription_filter Demo.runtime Demo.view_store nat "Subscription"
                Samples.filter_resolvers
                (Demo.operation Demo.subscription_document) None
                (Field None "onItem" [] [Demo.kappa_directive "items" "event" "added"]
                   [Field None "id" [] [] []])
                [Field None "onGone" [] [Demo.kappa_directive "items" "event" "removed"]
                   [Field None "id" [] [] []]]
                7 (Samples.busy_world 2) "items" "added" {[ "getItem" := VFun 0 ]}
                eq_refl eq_refl eq_refl eq_refl)
      as (s & warnings & w' & l & Hrun & Hsub & _ & Hfilter & _ & _ & _ & _ & _
          & Hreject & _).
    destruct (Hreject 2 eq_refl) as (_ & Hnever).
    { intros data args h. exists (VBool false), h. split; reflexivity. }
    exists s, warnings, w', l. split; [exact Hrun|]. split; [exact Hsub|].
    split; [exact Hfilter|].
    apply (Hnever ltac:(repeat constructor; discriminate) [VRef 0; VRef 1]).
Defined.
